(** * Aspia SMBIOS decoder (base/devices/smbios.cc)

    A shallow embedding of [aspia::SMBios] and of its typed table views,
    and the properties of the table walk, of the string lookup and of the
    BIOS, System and Baseboard accessors.

    Pointers into the firmware blob are offsets from
    [SMBiosData::smbios_table_data]; memory is a total map from offsets to
    cells, so that a read past the announced region is a read like any other,
    and every read is recorded.  The region announced by the header is
    [0, length).  What the program does on a buffer of a given size is read
    off the record: [run_in] tells the runs that stay inside the buffer from
    those that load a byte outside it. *)

From Stdlib Require Import ZArith List Bool Lia String Ascii.
Import ListNotations.
Local Open Scope Z_scope.

(** ** Memory and recorded reads *)

Module Mem.

(** The cell at each offset from the start of the table data. *)
Definition mem := Z -> Z.

(** A cell is a [uint8_t]; cells are kept in [Z] and reduced at the load. *)
Definition u8 (x : Z) : Z := x mod 256.

(** A computation reads memory, records the offsets it read (newest first)
    and either returns or runs out of loop fuel. *)
Definition Rd (A : Type) : Type := mem -> list Z -> option (A * list Z).

Definition ret {A} (a : A) : Rd A := fun _ tr => Some (a, tr).

Definition bind {A B} (c : Rd A) (k : A -> Rd B) : Rd B :=
  fun m tr => match c m tr with
              | Some (a, tr') => k a m tr'
              | None => None
              end.

Definition out_of_fuel {A} : Rd A := fun _ _ => None.

Definition load8 (a : Z) : Rd Z := fun m tr => Some (u8 (m a), a :: tr).

(** The memory that holds [bytes] from offset 0 on and [rest] elsewhere. *)
Definition place (bytes : list Z) (rest : mem) : mem :=
  fun a => if (0 <=? a) && (a <? Z.of_nat (List.length bytes))
           then nth (Z.to_nat a) bytes 0 else rest a.

(** [m] holds [bytes] from offset [off] on. *)
Definition holds (m : mem) (off : Z) (bytes : list Z) : Prop :=
  forall i, (i < List.length bytes)%nat -> m (off + Z.of_nat i) = nth i bytes 0.

(** The same as a test. *)
Definition holdsb (m : mem) (off : Z) (bytes : list Z) : bool :=
  forallb (fun i => m (off + Z.of_nat i) =? nth i bytes 0)
          (seq 0 (List.length bytes)).

(** Every recorded read lies in [lo, hi). *)
Definition reads_within (lo hi : Z) (tr : list Z) : Prop :=
  Forall (fun a => lo <= a < hi) tr.

Definition reads_withinb (lo hi : Z) (tr : list Z) : bool :=
  forallb (fun a => (lo <=? a) && (a <? hi)) tr.

End Mem.
Import Mem.

Notation "x <- c ;; k" := (bind c (fun x => k))
  (at level 61, c at next level, right associativity).

(** A little-endian 16-bit load: the [uint16_t] read through a cast pointer. *)
Definition load16 (a : Z) : Rd Z :=
  b0 <- load8 a ;;
  b1 <- load8 (a + 1) ;;
  ret (Z.lor b0 (Z.shiftl b1 8)).

(** ** SMBios: the table walk *)

(** Modelled from the spec: the [TableType] enumerator of smbios.h; the
    end-of-table marker is the reserved structure type 127. *)
Definition TABLE_TYPE_END_OF_TABLE : Z := 127.

(** The inner loop of [SMBios::GetTableCount]:
    while the 16-bit word at [pos] is not 0 and [pos < end], [++pos].
    The load comes first in the condition. *)
Fixpoint strings_end (fuel : nat) (end_ pos : Z) : Rd Z :=
  match fuel with
  | O => out_of_fuel
  | S fuel' =>
      w <- load16 pos ;;
      if negb (w =? 0) && (pos <? end_)
      then strings_end fuel' end_ (pos + 1)
      else ret pos
  end.

(** The outer loop of [SMBios::GetTableCount]. *)
Fixpoint count_loop (fuel : nat) (end_ pos count : Z) : Rd Z :=
  match fuel with
  | O => out_of_fuel
  | S fuel' =>
      if pos <? end_ then
        len <- load8 (pos + 1) ;;
        let pos := pos + len in
        pos <- strings_end (S (Z.to_nat (end_ - pos))) end_ pos ;;
        let pos := pos + 2 in
        count_loop fuel' end_ pos (count + 1)
      else ret count
  end.

(** [SMBios::GetTableCount(table_data, length)], with [table_data] at
    offset 0.  Each turn of the outer loop moves [pos] forward by two bytes
    or more, so [length] turns and one test are enough.  For the same reason
    the [int] count cannot overflow on a region of less than [2 ^ 32 - 1]
    bytes ([GetTableCount_bound]); it is kept in [Z], which is the count of
    the program on those regions only.  On a region of [2 ^ 32 - 1] bytes the
    count can reach [2 ^ 31] ([count_of_zeroes]). *)
Definition GetTableCount (length : Z) : Rd Z :=
  count_loop (S (Z.to_nat length)) length 0 0.

(** Modelled from the spec: [SMBiosData] of smbios.h, the header in front
    of the table data: the reported SMBIOS major and minor version and the
    table-region length (a [uint32_t]).  The table data that follows it,
    [smbios_table_data], is the memory from offset 0 on. *)
Record SMBiosData := {
  smbios_major_version : Z;
  smbios_minor_version : Z;
  length : Z
}.

(** The members of [SMBios]. *)
Record SMBios := {
  data_ : SMBiosData;
  data_size_ : Z;
  table_count_ : Z
}.

(** The value a computation returns on a memory, its reads left aside. *)
Definition value_of {A} (c : Rd A) (m : mem) : option A :=
  match c m [] with
  | Some (a, _) => Some a
  | None => None
  end.

(** The offsets a computation reads on a memory. *)
Definition reads_of {A} (c : Rd A) (m : mem) : option (list Z) :=
  match c m [] with
  | Some (_, tr) => Some tr
  | None => None
  end.

(** What a run does on a buffer that holds [size] bytes of table data: it
    returns a value, or it loads a byte outside the buffer.  The program has
    no defined behaviour from such a load on, so only the offset of the first
    one is kept. *)
Inductive outcome (A : Type) :=
| Returns (a : A)
| OutOfBuffer (offset : Z).

Arguments Returns {A} a.
Arguments OutOfBuffer {A} offset.

(** The first recorded read outside [0, size); the record is newest first. *)
Definition first_outside (size : Z) (tr : list Z) : option Z :=
  find (fun a => negb ((0 <=? a) && (a <? size))) (rev tr).

Definition run_in {A} (size : Z) (c : Rd A) (m : mem) : option (outcome A) :=
  match c m [] with
  | Some (a, tr) =>
      match first_outside size tr with
      | Some offset => Some (OutOfBuffer offset)
      | None => Some (Returns a)
      end
  | None => None
  end.

(** [SMBios::Create] returns [nullptr] on both failures; they are told apart
    here as the spec names them: the second is the one that logs
    "SMBios tables not found". *)
Inductive CreateResult :=
| EmptyInput
| NoStructures
| Created (smbios : SMBios).

Definition Create (data : option SMBiosData) (data_size : Z)
  : Rd CreateResult :=
  match data with
  | None => ret EmptyInput
  | Some smbios =>
      if data_size =? 0 then ret EmptyInput
      else
        table_count <- GetTableCount (length smbios) ;;
        if table_count =? 0 then ret NoStructures
        else ret (Created {| data_ := smbios;
                             data_size_ := data_size;
                             table_count_ := table_count |})
  end.

Definition GetMajorVersion (s : SMBios) : Z := u8 (smbios_major_version (data_ s)).
Definition GetMinorVersion (s : SMBios) : Z := u8 (smbios_minor_version (data_ s)).

(** The inner loop of [SMBios::GetTable], which looks for the next handle:
    while [next - start + 1 < length] and [next[0] != 0 || next[1] != 0],
    [++next].  [start] is offset 0; [||] loads [next[1]] only when
    [next[0]] is 0. *)
Fixpoint next_handle (fuel : nat) (length next : Z) : Rd Z :=
  match fuel with
  | O => out_of_fuel
  | S fuel' =>
      if next - 0 + 1 <? length then
        b0 <- load8 next ;;
        if negb (b0 =? 0) then next_handle fuel' length (next + 1)
        else
          b1 <- load8 (next + 1) ;;
          if negb (b1 =? 0) then next_handle fuel' length (next + 1)
          else ret next
      else ret next
  end.

(** Where and how the walk of [SMBios::GetTable] ends: the pointer it
    returns, the cursor and the index it stopped at, and whether it stopped
    on a declared length below 4 ("Invalid SMBIOS table length"). *)
Record walk_exit := {
  found : option Z;
  exit_pos : Z;
  exit_index : Z;
  invalid_length : bool
}.

(** The loop of [SMBios::GetTable]. *)
Fixpoint table_loop (fuel : nat) (length table_count type pos table_index : Z)
  : Rd walk_exit :=
  match fuel with
  | O => out_of_fuel
  | S fuel' =>
      if (table_index <? table_count) && (pos + 4 <=? length) then
        table_type <- load8 pos ;;
        table_length <- load8 (pos + 1) ;;
        if table_length <? 4 then
          ret {| found := None; exit_pos := pos; exit_index := table_index;
                 invalid_length := true |}
        else if table_type =? type then
          ret {| found := Some pos; exit_pos := pos; exit_index := table_index;
                 invalid_length := false |}
        else if table_type =? TABLE_TYPE_END_OF_TABLE then
          ret {| found := None; exit_pos := pos; exit_index := table_index;
                 invalid_length := false |}
        else
          let next := pos + table_length in
          next <- next_handle (S (Z.to_nat (length - next))) length next ;;
          table_loop fuel' length table_count type (next + 2) (table_index + 1)
      else
        ret {| found := None; exit_pos := pos; exit_index := table_index;
               invalid_length := false |}
  end.

(** The walk of [SMBios::GetTable] on the object [s]; [table_index] grows by
    one each turn, so [table_count_] turns and one test are enough. *)
Definition GetTable_walk (s : SMBios) (type : Z) : Rd walk_exit :=
  table_loop (S (Z.to_nat (table_count_ s))) (length (data_ s))
             (table_count_ s) type 0 0.

(** The two consistency warnings logged after the loop; they change no
    return value. *)
Definition count_mismatch (s : SMBios) (e : walk_exit) : bool :=
  negb (exit_index e + 1 =? table_count_ s).
Definition size_mismatch (s : SMBios) (e : walk_exit) : bool :=
  negb (exit_pos e =? length (data_ s)).

(** [SMBios::GetTable(type)]: the offset of the table, or [None] for
    [nullptr].  It is a [const] member: the object it ran on is handed back
    as it stands. *)
Definition GetTable (s : SMBios) (type : Z) : Rd (SMBios * option Z) :=
  e <- GetTable_walk s type ;;
  ret (s, found e).

(** The warnings [SMBios::GetTable] logs.  The search that succeeds returns
    from inside the loop and logs nothing; the one that fails logs the
    invalid length it stopped on, if any, and then the two consistency
    warnings with the numbers it compared. *)
Inductive warning :=
| InvalidLength
| CountMismatch (processed total : Z)
| SizeMismatch (processed announced : Z).

Definition GetTable_warnings (s : SMBios) (e : walk_exit) : list warning :=
  match found e with
  | Some _ => []
  | None =>
      (if invalid_length e then [InvalidLength] else [])
      ++ (if count_mismatch s e
          then [CountMismatch (exit_index e + 1) (table_count_ s)] else [])
      ++ (if size_mismatch s e
          then [SizeMismatch (exit_pos e) (length (data_ s))] else [])
  end.

(** ** SMBios::Table: field access in one located structure *)

Module Table.

(** [Table::Table(smbios, type)] keeps what [GetTable] returned. *)
Definition make (s : SMBios) (type : Z) : Rd (option Z) :=
  r <- GetTable s type ;;
  ret (snd r).

Definition IsValid (data_ : option Z) : bool :=
  match data_ with Some _ => true | None => false end.

(** The accessors below are those of a valid table, whose [data_] is the
    offset of the structure. *)
Definition GetByte (data_ offset : Z) : Rd Z := load8 (data_ + offset).

Definition GetWord (data_ offset : Z) : Rd Z := load16 (data_ + offset).

(** Little-endian load of [n] bytes from [a]. *)
Fixpoint load_le (n : nat) (a : Z) : Rd Z :=
  match n with
  | O => ret 0
  | S n' =>
      b <- load8 a ;;
      hi <- load_le n' (a + 1) ;;
      ret (Z.lor b (Z.shiftl hi 8))
  end.

Definition GetDword (data_ offset : Z) : Rd Z := load_le 4 (data_ + offset).
Definition GetQword (data_ offset : Z) : Rd Z := load_le 8 (data_ + offset).

(** [strlen]: the bytes before the first 0 from [s] on, looked for among
    the next [fuel] bytes. *)
Fixpoint strlen (fuel : nat) (s : Z) : Rd Z :=
  match fuel with
  | O => out_of_fuel
  | S fuel' =>
      c <- load8 s ;;
      if c =? 0 then ret 0
      else n <- strlen fuel' (s + 1) ;; ret (n + 1)
  end.

(** The [std::string] built from a C string: the bytes before the first 0
    from [s] on. *)
Fixpoint c_str (fuel : nat) (s : Z) : Rd (list Z) :=
  match fuel with
  | O => out_of_fuel
  | S fuel' =>
      c <- load8 s ;;
      if c =? 0 then ret []
      else rest <- c_str fuel' (s + 1) ;; ret (c :: rest)
  end.

(** The loop of [Table::GetString]:
    while [handle > 1 && *string], skip one string and [--handle]. *)
Fixpoint skip_strings (fuel turns : nat) (string handle : Z) : Rd Z :=
  match turns with
  | O => out_of_fuel
  | S turns' =>
      if 1 <? handle then
        c <- load8 string ;;
        if negb (c =? 0) then
          n <- strlen fuel string ;;
          skip_strings fuel turns' (string + n + 1) (handle - 1)
        else ret string
      else ret string
  end.

(** [Table::GetString(offset)].  [fuel] bounds each search for a
    terminating 0; [handle] is a byte, so 256 turns of the loop are
    enough. *)
Definition GetString (fuel : nat) (data_ offset : Z) : Rd (list Z) :=
  handle <- GetByte data_ offset ;;
  if handle =? 0 then ret []
  else
    len <- load8 (data_ + 1) ;;
    let string := data_ + len in
    string <- skip_strings fuel 256 string handle ;;
    c <- load8 string ;;
    if c =? 0 then ret []
    else
      c0 <- load8 (string + 0) ;;
      if c0 =? 0 then ret []
      else c_str fuel string.

End Table.

(** ** Feature lists of the typed views *)

Definition FeatureList := list (string * bool).

(** [for (int i = first; ...; ++i)] over [turns] bits, each turn appending
    [(names[i - base], flags & (1 << i))] to the list. *)
Fixpoint emplace_flags (turns : nat) (i base flags : Z) (names : list string)
         (feature_list : FeatureList) : FeatureList :=
  match turns with
  | O => feature_list
  | S turns' =>
      let is_supported := negb (Z.land flags (Z.shiftl 1 i) =? 0) in
      emplace_flags turns' (i + 1) base flags names
        (feature_list ++ [(nth (Z.to_nat (i - base)) names EmptyString, is_supported)])
  end.

Definition u32 (x : Z) : Z := x mod 2 ^ 32.

(** A [uint32_t] returned as [int]. *)
Definition to_int (x : Z) : Z := (x + 2 ^ 31) mod 2 ^ 32 - 2 ^ 31.

(** Modelled from the spec: [StringPrintf] of base/strings/string_util.h,
    for the two formats [BiosTable] uses: a revision is the text
    "{major}.{minor}" of two bytes in decimal, an address is four hexadecimal
    digits and "0h". *)
Module StringUtil.

Definition dec_digit (n : Z) : ascii := ascii_of_nat (48 + Z.to_nat n).

(** The conversion [%u] of a byte. *)
Definition dec_u8 (b : Z) : string :=
  if b <? 10 then String (dec_digit b) EmptyString
  else if b <? 100
       then String (dec_digit (b / 10)) (String (dec_digit (b mod 10)) EmptyString)
       else String (dec_digit (b / 100))
              (String (dec_digit (b / 10 mod 10))
                 (String (dec_digit (b mod 10)) EmptyString)).

Definition hex_digit (n : Z) : ascii :=
  nth (Z.to_nat n)
      ["0"; "1"; "2"; "3"; "4"; "5"; "6"; "7";
       "8"; "9"; "A"; "B"; "C"; "D"; "E"; "F"]%char "0"%char.


(** [StringPrintf("%u.%u", major, minor)]. *)
Definition StringPrintf_u_u (major minor : Z) : string :=
  (dec_u8 major ++ "." ++ dec_u8 minor)%string.


End StringUtil.

Module BiosTable.

(** [BiosTable::GetRuntimeSize]. *)
Definition GetRuntimeSize (data_ : Z) : Rd Z :=
  address <- Table.GetWord data_ 0x06 ;;
  if address =? 0 then ret 0
  else
    let code := u32 (Z.shiftl (0x10000 - address) 4) in
    if negb (Z.land code 0x000003FF =? 0) then ret (to_int code)
    else ret (to_int (u32 (Z.shiftr code 10 * 1024))).

Definition dquote : string := String (ascii_of_nat 34) EmptyString.

Definition characteristics_names : list string :=
  [ "BIOS characteristics not supported";
    "ISA";
    "MCA";
    "EISA";
    "PCI";
    "PC Card (PCMCIA)";
    "PNP";
    "APM";
    "BIOS is upgradeable";
    "BIOS shadowing";
    "VLB";
    "ESCD";
    "Boot from CD";
    "Selectable boot";
    "BIOS ROM is socketed";
    "Boot from PC Card (PCMCIA)";
    "EDD";
    "Japanese floppy for NEC 9800 1.2 MB (int 13h)";
    "Japanese floppy for Toshiba 1.2 MB (int 13h)";
    "5.25" ++ dquote ++ "/360 kB floppy (int 13h)";
    "5.25" ++ dquote ++ "/1.2 MB floppy (int 13h)";
    "3.5" ++ dquote ++ "/720 kB floppy (int 13h)";
    "3.5" ++ dquote ++ "/2.88 MB floppy (int 13h)";
    "Print screen (int 5h)";
    "8042 keyboard (int 9h)";
    "Serial (int 14h)";
    "Printer (int 17h)";
    "CGA/mono video (int 10h)";
    "NEC PC-98" ]%string.

Definition characteristics1_names : list string :=
  [ "ACPI";
    "USB legacy";
    "AGP";
    "I2O boot";
    "LS-120 boot";
    "ATAPI Zip drive boot";
    "IEEE 1394 boot";
    "Smart battery" ]%string.

Definition characteristics2_names : list string :=
  [ "BIOS boot specification";
    "Function key-initiated network boot";
    "Targeted content distribution" ]%string.

(** [BiosTable::GetCharacteristics]. *)
Definition GetCharacteristics (data_ : Z) : Rd FeatureList :=
  let feature_list : FeatureList := [] in
  characteristics <- Table.GetQword data_ 0x0A ;;
  let feature_list :=
    if Z.land characteristics (Z.shiftl 1 3) =? 0
    then emplace_flags 28 4 3 characteristics characteristics_names feature_list
    else feature_list in
  table_length <- Table.GetByte data_ 0x01 ;;
  feature_list <-
    (if 0x13 <=? table_length then
       characteristics1 <- Table.GetByte data_ 0x12 ;;
       ret (emplace_flags 8 0 0 characteristics1 characteristics1_names feature_list)
     else ret feature_list) ;;
  feature_list <-
    (if 0x14 <=? table_length then
       characteristics2 <- Table.GetByte data_ 0x13 ;;
       ret (emplace_flags 3 0 0 characteristics2 characteristics2_names feature_list)
     else ret feature_list) ;;
  ret feature_list.

Definition GetManufacturer (fuel : nat) (data_ : Z) : Rd (list Z) :=
  Table.GetString fuel data_ 0x04.

Definition GetVersion (fuel : nat) (data_ : Z) : Rd (list Z) :=
  Table.GetString fuel data_ 0x05.

Definition GetDate (fuel : nat) (data_ : Z) : Rd (list Z) :=
  Table.GetString fuel data_ 0x08.


(** [BiosTable::GetBiosRevision]. *)
Definition GetBiosRevision (data_ : Z) : Rd string :=
  major <- Table.GetByte data_ 0x14 ;;
  minor <- Table.GetByte data_ 0x15 ;;
  if negb (major =? 0xFF) && negb (minor =? 0xFF)
  then ret (StringUtil.StringPrintf_u_u major minor)
  else ret EmptyString.

(** [BiosTable::GetFirmwareRevision]. *)
Definition GetFirmwareRevision (data_ : Z) : Rd string :=
  major <- Table.GetByte data_ 0x16 ;;
  minor <- Table.GetByte data_ 0x17 ;;
  if negb (major =? 0xFF) && negb (minor =? 0xFF)
  then ret (StringUtil.StringPrintf_u_u major minor)
  else ret EmptyString.


End BiosTable.

Module SystemTable.

Definition hex_digit (n : Z) : ascii :=
  nth (Z.to_nat n)
      ["0"; "1"; "2"; "3"; "4"; "5"; "6"; "7";
       "8"; "9"; "A"; "B"; "C"; "D"; "E"; "F"]%char "0"%char.

(** The conversion [%02X] of a byte. *)
Definition hex2 (b : Z) : string :=
  String (hex_digit (b / 16)) (String (hex_digit (b mod 16)) EmptyString).

Definition hex_bytes (bs : list Z) : string :=
  fold_right (fun b s => append (hex2 b) s) EmptyString bs.

(** [StringPrintf] with the format of four, two, two, two and six [%02X]. *)
Definition StringPrintf_uuid (args : list Z) : string :=
  (hex_bytes (firstn 4 args) ++ "-" ++
   hex_bytes (firstn 2 (skipn 4 args)) ++ "-" ++
   hex_bytes (firstn 2 (skipn 6 args)) ++ "-" ++
   hex_bytes (firstn 2 (skipn 8 args)) ++ "-" ++
   hex_bytes (firstn 6 (skipn 10 args)))%string.

(** The arguments [ptr[i]], loaded in the order they are written. *)
Fixpoint load_each (ptr : Z) (idx : list Z) : Rd (list Z) :=
  match idx with
  | [] => ret []
  | i :: idx' =>
      b <- load8 (ptr + i) ;;
      bs <- load_each ptr idx' ;;
      ret (b :: bs)
  end.

(** The loop [for (int i = 0; i < 16 && (only_0x00 || only_0xFF); ++i)]. *)
Fixpoint uuid_scan (turns : nat) (ptr i : Z) (only_0xFF only_0x00 : bool)
  : Rd (bool * bool) :=
  match turns with
  | O => out_of_fuel
  | S turns' =>
      if (i <? 16) && (only_0x00 || only_0xFF) then
        a <- load8 (ptr + i) ;;
        let only_0x00 := if negb (a =? 0x00) then false else only_0x00 in
        b <- load8 (ptr + i) ;;
        let only_0xFF := if negb (b =? 0xFF) then false else only_0xFF in
        uuid_scan turns' ptr (i + 1) only_0xFF only_0x00
      else ret (only_0xFF, only_0x00)
  end.

(** [SystemTable::GetUUID], on a view that holds [major_version_] and
    [minor_version_] (two [uint8_t]). *)
Definition GetUUID (data_ major_version_ minor_version_ : Z) : Rd string :=
  table_length <- Table.GetByte data_ 0x01 ;;
  if table_length <? 0x19 then ret EmptyString
  else
    let ptr := data_ + 0x08 in
    flags <- uuid_scan 17 ptr 0 true true ;;
    let '(only_0xFF, only_0x00) := flags in
    if only_0xFF || only_0x00 then ret EmptyString
    else if 0x0206 <=? Z.shiftl major_version_ 8 + minor_version_ then
      args <- load_each ptr [3; 2; 1; 0; 5; 4; 7; 6; 8; 9; 10; 11; 12; 13; 14; 15] ;;
      ret (StringPrintf_uuid args)
    else
      args <- load_each ptr [0; 1; 2; 3; 4; 5; 6; 7; 8; 9; 10; 11; 12; 13; 14; 15] ;;
      ret (StringPrintf_uuid args).

(** The sixteen bytes at [ptr = GetPointer(0x08)]. *)
Definition uuid_bytes (m : mem) (data_ : Z) : list Z :=
  map (fun i => u8 (m (data_ + 0x08 + i)))
      [0; 1; 2; 3; 4; 5; 6; 7; 8; 9; 10; 11; 12; 13; 14; 15].


Definition GetManufacturer (fuel : nat) (data_ : Z) : Rd (list Z) :=
  Table.GetString fuel data_ 0x04.

Definition GetProductName (fuel : nat) (data_ : Z) : Rd (list Z) :=
  Table.GetString fuel data_ 0x05.

Definition GetVersion (fuel : nat) (data_ : Z) : Rd (list Z) :=
  Table.GetString fuel data_ 0x06.

Definition GetSerialNumber (fuel : nat) (data_ : Z) : Rd (list Z) :=
  Table.GetString fuel data_ 0x07.

(** [SystemTable::GetWakeupType]. *)
Definition GetWakeupType (data_ : Z) : Rd string :=
  table_length <- Table.GetByte data_ 0x01 ;;
  if table_length <? 0x19 then ret EmptyString
  else
    wakeup <- Table.GetByte data_ 0x18 ;;
    ret (match wakeup with
         | 0x01 => "Other"
         | 0x02 => "Unknown"
         | 0x03 => "APM Timer"
         | 0x04 => "Modem Ring"
         | 0x05 => "LAN Remote"
         | 0x06 => "Power Switch"
         | 0x07 => "PCI PME#"
         | 0x08 => "AC Power Restored"
         | _ => EmptyString
         end)%string.

(** [SystemTable::GetSKUNumber]. *)
Definition GetSKUNumber (fuel : nat) (data_ : Z) : Rd (list Z) :=
  table_length <- Table.GetByte data_ 0x01 ;;
  if table_length <? 0x1B then ret []
  else Table.GetString fuel data_ 0x19.

(** [SystemTable::GetFamily]. *)
Definition GetFamily (fuel : nat) (data_ : Z) : Rd (list Z) :=
  table_length <- Table.GetByte data_ 0x01 ;;
  if table_length <? 0x1B then ret []
  else Table.GetString fuel data_ 0x1A.

End SystemTable.

Module BaseboardTable.

Definition feature_names : list string :=
  [ "Board is a hosting board";
    "Board requires at least one daughter board";
    "Board is removable";
    "Board is replaceable";
    "Board is hot swappable" ]%string.

(** [BaseboardTable::GetFeatures]. *)
Definition GetFeatures (data_ : Z) : Rd FeatureList :=
  table_length <- Table.GetByte data_ 0x01 ;;
  if table_length <? 0x0A then ret []
  else
    features <- Table.GetByte data_ 0x09 ;;
    if Z.land features 0x1F =? 0 then ret []
    else ret (emplace_flags 5 0 0 features feature_names []).

Definition GetManufacturer (fuel : nat) (data_ : Z) : Rd (list Z) :=
  Table.GetString fuel data_ 0x04.

Definition GetProductName (fuel : nat) (data_ : Z) : Rd (list Z) :=
  Table.GetString fuel data_ 0x05.

Definition GetVersion (fuel : nat) (data_ : Z) : Rd (list Z) :=
  Table.GetString fuel data_ 0x06.

Definition GetSerialNumber (fuel : nat) (data_ : Z) : Rd (list Z) :=
  Table.GetString fuel data_ 0x07.

(** [BaseboardTable::GetAssetTag]. *)
Definition GetAssetTag (fuel : nat) (data_ : Z) : Rd (list Z) :=
  table_length <- Table.GetByte data_ 0x01 ;;
  if table_length <? 0x09 then ret []
  else Table.GetString fuel data_ 0x08.

(** [BaseboardTable::GetLocationInChassis]. *)
Definition GetLocationInChassis (fuel : nat) (data_ : Z) : Rd (list Z) :=
  table_length <- Table.GetByte data_ 0x01 ;;
  if table_length <? 0x0E then ret []
  else Table.GetString fuel data_ 0x0A.

Definition type_names : list string :=
  [ "Unknown";
    "Other";
    "Server Blade";
    "Connectivity Switch";
    "System Management Module";
    "Processor Module";
    "I/O Module";
    "Memory Module";
    "Daughter Board";
    "Motherboard";
    "Processor+Memory Module";
    "Processor+I/O Module";
    "Interconnect Board" ]%string.

(** [BaseboardTable::GetBoardType]. *)
Definition GetBoardType (data_ : Z) : Rd string :=
  table_length <- Table.GetByte data_ 0x01 ;;
  if table_length <? 0x0E then ret EmptyString
  else
    type <- Table.GetByte data_ 0x0D ;;
    if (type =? 0) || (0x0D <? type) then ret EmptyString
    else ret (nth (Z.to_nat (type - 1)) type_names EmptyString).

End BaseboardTable.

(** ** The blob format (spec, section 3) *)

Module Blob.

(** One structure: its type code, the two bytes of its handle, the bytes of
    its formatted area after the four-byte header, and its strings. *)
Record structure := {
  s_type : Z;
  s_handle : Z * Z;
  s_area : list Z;
  s_strings : list (list Z)
}.

(** The declared length counts the header and the formatted area, so it is
    4 or more. *)
Definition declared_length (s : structure) : Z :=
  4 + Z.of_nat (List.length (s_area s)).

(** The strings, each followed by its terminating 0. *)
Definition strings_bytes (strs : list (list Z)) : list Z :=
  flat_map (fun t => t ++ [0]) strs.

(** The trailing string list: the strings and one more 0; two 0 when there
    is no string.  Either way it ends with two consecutive 0. *)
Definition string_list (strs : list (list Z)) : list Z :=
  match strs with
  | [] => [0; 0]
  | _ => strings_bytes strs ++ [0]
  end.

Definition encode (s : structure) : list Z :=
  s_type s :: declared_length s :: fst (s_handle s) :: snd (s_handle s)
    :: s_area s ++ string_list (s_strings s).

Definition encode_all (ss : list structure) : list Z := flat_map encode ss.

Definition size (s : structure) : Z := Z.of_nat (List.length (encode s)).

Definition is_byte (b : Z) : bool := (0 <=? b) && (b <? 256).

(** A string is not empty and holds no 0. *)
Definition wf_string (t : list Z) : bool :=
  match t with
  | [] => false
  | _ => forallb (fun c => (1 <=? c) && (c <? 256)) t
  end.

Definition wf_structure (s : structure) : bool :=
  is_byte (s_type s) && is_byte (fst (s_handle s)) && is_byte (snd (s_handle s))
  && forallb is_byte (s_area s) && (declared_length s <? 256)
  && forallb wf_string (s_strings s).

(** The type code of the last structure, if there is one. *)
Definition last_type (ss : list structure) : option Z :=
  match rev ss with
  | [] => None
  | s :: _ => Some (s_type s)
  end.

(** A wellformed blob: wellformed structures, the last of which is the
    end-of-table marker, in a region that a [uint32_t] can announce. *)
Definition wellformed (ss : list structure) : bool :=
  forallb wf_structure ss
  && match last_type ss with Some t => t =? TABLE_TYPE_END_OF_TABLE | None => false end
  && (Z.of_nat (List.length (encode_all ss)) <? 2 ^ 32).

(** What the spec asks of [locate]: the offset of the first structure of
    the type, unless the end-of-table marker comes before it; [off] is the
    offset of the first structure of [ss]. *)
Fixpoint first_match (ss : list structure) (off type : Z) : option Z :=
  match ss with
  | [] => None
  | s :: rest =>
      if s_type s =? type then Some off
      else if s_type s =? 127 then None
      else first_match rest (off + size s) type
  end.

(** The index of the first two consecutive 0 in a byte list. *)
Fixpoint double_zero (bs : list Z) : option nat :=
  match bs with
  | [] => None
  | b :: rest =>
      match rest with
      | c :: _ =>
          if (b =? 0) && (c =? 0) then Some O
          else option_map S (double_zero rest)
      | [] => None
      end
  end.

(** Where the walk over structures stops for a type: at the first structure
    of the type or at the first marker, else behind the last structure;
    [off] and [index] are those of the first structure of [ss]. *)
Fixpoint walk_stop (ss : list structure) (off index type : Z) : walk_exit :=
  match ss with
  | [] => {| found := None; exit_pos := off; exit_index := index;
             invalid_length := false |}
  | s :: rest =>
      if s_type s =? type then
        {| found := Some off; exit_pos := off; exit_index := index;
           invalid_length := false |}
      else if s_type s =? 127 then
        {| found := None; exit_pos := off; exit_index := index;
           invalid_length := false |}
      else walk_stop rest (off + size s) (index + 1) type
  end.

(** The string the byte at [offset] of the formatted area refers to: none
    for the index 0 and for an index past the last string. *)
Definition referred_string (s : structure) (offset : Z) : list Z :=
  let k := nth (Z.to_nat (offset - 4)) (s_area s) 0 in
  if k =? 0 then [] else nth (Z.to_nat (k - 1)) (s_strings s) [].

End Blob.

(** A reader of revision texts, to state that a revision can be read back:
    decimal digits, a dot, decimal digits. *)
Module Reading.

Definition digit_value (c : ascii) : option Z :=
  let n := Z.of_nat (nat_of_ascii c) in
  if (48 <=? n) && (n <=? 57) then Some (n - 48) else None.

Fixpoint read_digits (acc : Z) (text : string) : Z * string :=
  match text with
  | EmptyString => (acc, text)
  | String c rest =>
      match digit_value c with
      | Some d => read_digits (10 * acc + d) rest
      | None => (acc, text)
      end
  end.

Definition read_u_u (text : string) : option (Z * Z) :=
  let (major, rest) := read_digits 0 text in
  match rest with
  | String "."%char rest' =>
      let (minor, rest'') := read_digits 0 rest' in
      match rest'' with
      | EmptyString => Some (major, minor)
      | _ => None
      end
  | _ => None
  end.

End Reading.

(** A computation only adds to the record of reads: started on [tr] it does
    what it does started on nothing, with [tr] kept behind. *)
Definition framed {A} (c : Rd A) : Prop :=
  forall m tr,
    c m tr = match c m [] with
             | Some (v, t) => Some (v, t ++ tr)
             | None => None
             end.

(** The number a byte list stands for, least significant byte first. *)
Fixpoint le_value (bytes : list Z) : Z :=
  match bytes with
  | [] => 0
  | b :: rest => b + 256 * le_value rest
  end.

(** The bytes of memory at the offsets [a], [a + 1], ... [a + n - 1]. *)
Definition bytes_at (m : mem) (a : Z) (n : nat) : list Z :=
  map (fun i => u8 (m (a + Z.of_nat i))) (seq 0 n).

(** [tr'] is [tr] and, before it, reads that all lie in [lo, hi). *)
Definition extends (lo hi : Z) (tr tr' : list Z) : Prop :=
  exists new, tr' = new ++ tr /\ reads_within lo hi new.

(** ** Sample blobs *)

Module Examples.
Import Blob.

(** A BIOS structure of declared length 5 with the strings "A" and "BC". *)
Definition bios : structure :=
  {| s_type := 0; s_handle := (0, 0); s_area := [1]; s_strings := [[65]; [66; 67]] |}.

(** The end-of-table marker, without strings. *)
Definition end_of_table : structure :=
  {| s_type := 127; s_handle := (1, 0); s_area := []; s_strings := [] |}.

Definition blob : list structure := [bios; end_of_table].

(** What lies outside the blob. *)
Definition outside : mem := fun _ => 0xAA.

Definition blob_mem : mem := place (encode_all blob) outside.

(** The BIOS structure followed by a structure of declared length 3. *)
Definition short_mem : mem :=
  place (encode_all [bios] ++ [1; 3; 2; 0; 0; 0]) outside.

Definition short_smbios : SMBios :=
  {| data_ := {| smbios_major_version := 2; smbios_minor_version := 6; length := 17 |};
     data_size_ := 25;
     table_count_ := 2 |}.

(** A System structure with the UUID bytes 01 to 10 and the wake-up type 6,
    under the declared length [len]. *)
Definition system_mem (len : Z) : mem :=
  place [1; len; 0; 0; 0; 0; 0; 0;
         1; 2; 3; 4; 5; 6; 7; 8; 9; 10; 11; 12; 13; 14; 15; 16; 6] outside.

(** A BIOS structure whose only string, "AB", is cut by the end of a region
    of seven bytes; zeroes follow the region. *)
Definition truncated_mem : mem := place [0; 5; 0; 0; 1; 65; 66] (fun _ => 0).

Definition truncated_smbios : SMBios :=
  {| data_ := {| smbios_major_version := 2; smbios_minor_version := 6; length := 7 |};
     data_size_ := 15;
     table_count_ := 1 |}.

(** The object [Create] builds on [blob_mem]. *)
Definition blob_smbios : SMBios :=
  {| data_ := {| smbios_major_version := 2; smbios_minor_version := 6; length := 17 |};
     data_size_ := 25;
     table_count_ := 2 |}.

(** A Baseboard structure of declared length 0x0F, with the feature byte 5,
    the board type 0x0A and the strings "M", "P", "V", "S", "T" and "L". *)
Definition baseboard : structure :=
  {| s_type := 2; s_handle := (2, 0);
     s_area := [1; 2; 3; 4; 5; 5; 6; 0; 0; 0x0A; 0];
     s_strings := [[77]; [80]; [86]; [83]; [84]; [76]] |}.

Definition baseboard_mem : mem := place (encode baseboard) outside.

End Examples.

(** * Properties *)

(** Unfolds the sequencing of loads in the goal. *)
Ltac rd_simpl := cbv beta iota delta [bind load16 load8 ret out_of_fuel].

(** ** Bytes, words and recorded reads *)

Lemma u8_range x : 0 <= u8 x < 256.
Proof. unfold u8. apply Z.mod_pos_bound. lia. Qed.

Lemma u8_id x : 0 <= x < 256 -> u8 x = x.
Proof. intros H. unfold u8. apply Z.mod_small. exact H. Qed.

Lemma word_zero b0 b1 :
  0 <= b1 ->
  (Z.lor b0 (Z.shiftl b1 8) =? 0) = (b0 =? 0) && (b1 =? 0).
Proof.
  intros H1.
  destruct (Z.eqb_spec b0 0) as [E0|N0]; destruct (Z.eqb_spec b1 0) as [E1|N1];
    subst; cbn [andb].
  - reflexivity.
  - apply Z.eqb_neq. intros H. apply Z.lor_eq_0_iff in H. destruct H as [_ H].
    apply Z.shiftl_eq_0_iff in H; lia.
  - apply Z.eqb_neq. intros H. apply Z.lor_eq_0_iff in H. tauto.
  - apply Z.eqb_neq. intros H. apply Z.lor_eq_0_iff in H. tauto.
Qed.

Lemma extends_refl lo hi tr : extends lo hi tr tr.
Proof. exists []. split; [reflexivity | constructor]. Qed.

Lemma extends_cons lo hi a tr tr' :
  lo <= a < hi -> extends lo hi (a :: tr) tr' -> extends lo hi tr tr'.
Proof.
  intros Ha [new [E W]]. exists (new ++ [a]). split.
  - rewrite E, <- app_assoc. reflexivity.
  - apply Forall_app. split; [exact W | constructor; [exact Ha | constructor]].
Qed.

Lemma extends_trans lo hi tr1 tr2 tr3 :
  extends lo hi tr1 tr2 -> extends lo hi tr2 tr3 -> extends lo hi tr1 tr3.
Proof.
  intros [n1 [E1 W1]] [n2 [E2 W2]]. exists (n2 ++ n1). split.
  - rewrite E2, E1, app_assoc. reflexivity.
  - apply Forall_app. split; assumption.
Qed.

Lemma extends_weaken lo hi lo' hi' tr tr' :
  lo' <= lo -> hi <= hi' -> extends lo hi tr tr' -> extends lo' hi' tr tr'.
Proof.
  intros Hl Hh [new [E W]]. exists new. split; [exact E|].
  eapply Forall_impl; [|exact W]. simpl. intros a Ha. lia.
Qed.

Lemma extends_within lo hi tr tr' :
  extends lo hi tr tr' -> reads_within lo hi tr -> reads_within lo hi tr'.
Proof.
  intros [new [E W]] H. subst tr'. apply Forall_app. split; assumption.
Qed.

Lemma reads_withinb_true lo hi tr :
  reads_withinb lo hi tr = true <-> reads_within lo hi tr.
Proof.
  unfold reads_withinb, reads_within. rewrite forallb_forall, Forall_forall.
  split; intros H a Ha; specialize (H a Ha); lia.
Qed.

Lemma value_of_Some {A} (c : Rd A) m a tr :
  c m [] = Some (a, tr) -> value_of c m = Some a.
Proof. unfold value_of. intros ->. reflexivity. Qed.

Lemma reads_of_Some {A} (c : Rd A) m a tr :
  c m [] = Some (a, tr) -> reads_of c m = Some tr.
Proof. unfold reads_of. intros ->. reflexivity. Qed.

(** ** Memory that holds a byte list *)

Lemma holds_cons m off b bs :
  holds m off (b :: bs) <-> m off = b /\ holds m (off + 1) bs.
Proof.
  unfold holds. split.
  - intros H. split.
    + specialize (H O). simpl in H. rewrite Z.add_0_r in H. apply H. lia.
    + intros i Hi. specialize (H (S i)). simpl in H.
      rewrite <- H by lia. f_equal. lia.
  - intros [H0 H] i Hi. destruct i as [|i]; simpl.
    + rewrite Z.add_0_r. exact H0.
    + simpl in Hi. rewrite <- H by lia. f_equal. lia.
Qed.

Lemma holds_app m off bs1 bs2 :
  holds m off (bs1 ++ bs2) <->
  holds m off bs1 /\ holds m (off + Z.of_nat (List.length bs1)) bs2.
Proof.
  revert off. induction bs1 as [|b bs1 IH]; intros off; simpl.
  - rewrite Z.add_0_r. split; [intros H; split; [intros i Hi; simpl in Hi; lia | exact H] | tauto].
  - rewrite !holds_cons, IH.
    replace (off + 1 + Z.of_nat (List.length bs1))
      with (off + Z.pos (Pos.of_succ_nat (List.length bs1))) by lia.
    tauto.
Qed.

Lemma holds_place bs rest : holds (place bs rest) 0 bs.
Proof.
  intros i Hi. unfold place. simpl.
  replace ((0 <=? Z.of_nat i) && (Z.of_nat i <? Z.of_nat (List.length bs))) with true
    by (symmetry; apply andb_true_iff; split; [apply Z.leb_le | apply Z.ltb_lt]; lia).
  rewrite Nat2Z.id. reflexivity.
Qed.

Lemma holdsb_true m off bs : holdsb m off bs = true -> holds m off bs.
Proof.
  unfold holdsb, holds. rewrite forallb_forall. intros H i Hi.
  apply Z.eqb_eq, H, in_seq. lia.
Qed.

(** ** GetTableCount on any memory *)

Lemma strings_end_S fuel end_ pos m tr :
  strings_end (S fuel) end_ pos m tr =
  if negb ((u8 (m pos) =? 0) && (u8 (m (pos + 1)) =? 0)) && (pos <? end_)
  then strings_end fuel end_ (pos + 1) m ((pos + 1) :: pos :: tr)
  else Some (pos, (pos + 1) :: pos :: tr).
Proof.
  cbn [strings_end]. rd_simpl.
  rewrite word_zero by apply u8_range.
  destruct (negb _ && _); reflexivity.
Qed.

Lemma strings_end_total fuel : forall end_ pos m tr,
  (Z.to_nat (end_ - pos) < fuel)%nat ->
  exists p tr', strings_end fuel end_ pos m tr = Some (p, tr') /\ pos <= p.
Proof.
  induction fuel as [|fuel IH]; intros end_ pos m tr Hf; [lia|].
  rewrite strings_end_S.
  destruct (negb _ && (pos <? end_)) eqn:C.
  - apply andb_true_iff in C. destruct C as [_ C]. apply Z.ltb_lt in C.
    destruct (IH end_ (pos + 1) m ((pos + 1) :: pos :: tr)) as [p [tr' [E L]]]; [lia|].
    exists p, tr'. split; [exact E | lia].
  - exists pos, ((pos + 1) :: pos :: tr). split; [reflexivity | lia].
Qed.

Lemma count_loop_S fuel end_ pos count m tr :
  count_loop (S fuel) end_ pos count m tr =
  if pos <? end_ then
    match strings_end (S (Z.to_nat (end_ - (pos + u8 (m (pos + 1))))))
                      end_ (pos + u8 (m (pos + 1))) m ((pos + 1) :: tr) with
    | Some (p, tr') => count_loop fuel end_ (p + 2) (count + 1) m tr'
    | None => None
    end
  else Some (count, tr).
Proof.
  cbn [count_loop]. rd_simpl. destruct (pos <? end_); reflexivity.
Qed.

Lemma count_loop_total fuel : forall end_ pos count m tr,
  (Z.to_nat (end_ - pos) < fuel)%nat ->
  exists n tr', count_loop fuel end_ pos count m tr = Some (n, tr')
                /\ count <= n /\ (pos < end_ -> count + 1 <= n)
                /\ (end_ <= pos -> n = count).
Proof.
  induction fuel as [|fuel IH]; intros end_ pos count m tr Hf; [lia|].
  rewrite count_loop_S. destruct (Z.ltb_spec pos end_) as [L|L].
  - pose proof (u8_range (m (pos + 1))) as Hb.
    destruct (strings_end_total (S (Z.to_nat (end_ - (pos + u8 (m (pos + 1))))))
                end_ (pos + u8 (m (pos + 1))) m ((pos + 1) :: tr))
      as [p [tr1 [E Hp]]]; [lia|].
    rewrite E.
    destruct (IH end_ (p + 2) (count + 1) m tr1) as [n [tr2 [E2 [H1 _]]]]; [lia|].
    exists n, tr2. split; [exact E2|]. lia.
  - exists count, tr. split; [reflexivity|]. lia.
Qed.

Lemma GetTableCount_total length m tr :
  exists n tr', GetTableCount length m tr = Some (n, tr')
                /\ (0 < length -> 1 <= n) /\ (length <= 0 -> n = 0).
Proof.
  unfold GetTableCount.
  destruct (count_loop_total (S (Z.to_nat length)) length 0 0 m tr)
    as [n [tr' [E [H0 [H1 H2]]]]].
  - rewrite Z.sub_0_r. lia.
  - exists n, tr'. split; [exact E|]. split; intros; lia.
Qed.

(** ** The count stays an [int] *)

Lemma strings_end_ge fuel : forall end_ pos m tr p tr',
  strings_end fuel end_ pos m tr = Some (p, tr') -> pos <= p.
Proof.
  induction fuel as [|fuel IH]; intros end_ pos m tr p tr' E; [discriminate|].
  rewrite strings_end_S in E. destruct (negb _ && _).
  - apply IH in E. lia.
  - injection E as <- _. lia.
Qed.

(** Each structure counted takes two bytes or more of the region, so the
    count is below [2 ^ 31] for every region of less than [2 ^ 32 - 2]
    bytes. *)
Lemma count_loop_bound fuel : forall end_ pos count m tr n tr',
  count_loop fuel end_ pos count m tr = Some (n, tr') ->
  2 * (n - count) <= Z.max 0 (end_ - pos + 1).
Proof.
  induction fuel as [|fuel IH]; intros end_ pos count m tr n tr' E; [discriminate|].
  rewrite count_loop_S in E. destruct (Z.ltb_spec pos end_) as [L|L].
  - destruct (strings_end _ _ _ _ _) as [[p tr1]|] eqn:E1; [|discriminate].
    apply strings_end_ge in E1. apply IH in E.
    pose proof (u8_range (m (pos + 1))). lia.
  - injection E as <- _. lia.
Qed.

Lemma GetTableCount_bound length m n tr :
  0 <= length -> GetTableCount length m [] = Some (n, tr) -> 2 * n <= length + 1.
Proof.
  intros Hl E. apply count_loop_bound in E. lia.
Qed.

(** On a region of zeroes every structure counted takes two bytes, which is
    the most structures a region can count. *)
Lemma count_loop_zeroes fuel : forall end_ pos count tr,
  (Z.to_nat (end_ - pos) < fuel)%nat ->
  exists tr',
    count_loop fuel end_ pos count (fun _ => 0) tr
    = Some (count + Z.max 0 ((end_ - pos + 1) / 2), tr').
Proof.
  induction fuel as [|fuel IH]; intros end_ pos count tr Hf; [lia|].
  rewrite count_loop_S. destruct (Z.ltb_spec pos end_) as [L|L].
  - change (u8 0) with 0. rewrite Z.add_0_r, strings_end_S.
    change (u8 0) with 0. cbn [Z.eqb andb negb].
    destruct (IH end_ (pos + 2) (count + 1) ((pos + 1) :: pos :: (pos + 1) :: tr))
      as [tr' E]; [lia|].
    exists tr'. rewrite E. f_equal. f_equal.
    replace (end_ - pos + 1) with (end_ - (pos + 2) + 1 + 1 * 2) by lia.
    rewrite Z.div_add by lia.
    pose proof (Z.div_mod (end_ - (pos + 2) + 1) 2) as D.
    pose proof (Z.mod_pos_bound (end_ - (pos + 2) + 1) 2) as M.
    lia.
  - exists tr. f_equal. f_equal.
    pose proof (Z.div_mod (end_ - pos + 1) 2) as D.
    pose proof (Z.mod_pos_bound (end_ - pos + 1) 2) as M.
    lia.
Qed.

Lemma count_of_zeroes :
  value_of (GetTableCount (2 ^ 32 - 1)) (fun _ => 0) = Some (2 ^ 31).
Proof.
  destruct (count_loop_zeroes (S (Z.to_nat (2 ^ 32 - 1))) (2 ^ 32 - 1) 0 0 [])
    as [tr E]; [lia|].
  unfold value_of, GetTableCount. rewrite E. reflexivity.
Qed.

(** ** The count walk and the end of the buffer *)

Lemma first_outside_None size tr :
  first_outside size tr = None <-> reads_within 0 size tr.
Proof.
  unfold first_outside, reads_within. rewrite Forall_forall. split.
  - intros F a Ha. rewrite in_rev in Ha.
    pose proof (find_none _ _ F a Ha) as N. cbv beta in N. lia.
  - intros W. destruct (find _ (rev tr)) as [a|] eqn:F; [|reflexivity].
    apply find_some in F. destruct F as [Ha N]. rewrite <- in_rev in Ha.
    specialize (W a Ha). lia.
Qed.

Lemma first_outside_Some size tr a :
  first_outside size tr = Some a -> In a tr /\ ~ 0 <= a < size.
Proof.
  unfold first_outside. intros F. apply find_some in F. destruct F as [Ha N].
  rewrite <- in_rev in Ha. split; [exact Ha | lia].
Qed.

Lemma run_in_cases {A} (c : Rd A) m size v tr :
  c m [] = Some (v, tr) ->
  (run_in size c m = Some (Returns v) /\ reads_within 0 size tr)
  \/ (exists a, run_in size c m = Some (OutOfBuffer a)
                /\ In a tr /\ ~ 0 <= a < size).
Proof.
  intros E. unfold run_in. rewrite E.
  destruct (first_outside size tr) as [a|] eqn:F.
  - right. exists a. split; [reflexivity | exact (first_outside_Some _ _ _ F)].
  - left. split; [reflexivity | apply first_outside_None; exact F].
Qed.

(** The scan for the end of the strings reads from [pos] on and at most one
    byte past the end of the region, or two bytes when it starts behind
    it. *)
Lemma strings_end_reads fuel : forall end_ pos m tr p tr',
  strings_end fuel end_ pos m tr = Some (p, tr') ->
  extends pos (Z.max pos end_ + 2) tr tr'.
Proof.
  induction fuel as [|fuel IH]; intros end_ pos m tr p tr' E; [discriminate|].
  rewrite strings_end_S in E.
  apply (extends_cons _ _ pos); [lia|]. apply (extends_cons _ _ (pos + 1)); [lia|].
  destruct (negb _ && (pos <? end_)) eqn:C.
  - apply andb_true_iff in C. destruct C as [_ C]. apply Z.ltb_lt in C.
    apply IH in E. eapply extends_weaken; [| |exact E]; lia.
  - injection E as _ <-. apply extends_refl.
Qed.

(** The count walk skips the declared length unchecked, a byte, so it reads
    less than 256 bytes past the end of the region. *)
Lemma count_loop_reads fuel : forall end_ pos count m tr n tr',
  count_loop fuel end_ pos count m tr = Some (n, tr') ->
  0 <= pos ->
  extends 0 (end_ + 256) tr tr'.
Proof.
  induction fuel as [|fuel IH]; intros end_ pos count m tr n tr' E H0; [discriminate|].
  rewrite count_loop_S in E. destruct (Z.ltb_spec pos end_) as [L|L].
  - pose proof (u8_range (m (pos + 1))) as Hb.
    destruct (strings_end _ _ _ _ _) as [[p tr1]|] eqn:E1; [|discriminate].
    pose proof (strings_end_ge _ _ _ _ _ _ _ E1) as Hp.
    apply strings_end_reads in E1. apply IH in E; [|lia].
    apply (extends_cons _ _ (pos + 1)); [lia|].
    eapply extends_trans; [|exact E].
    eapply extends_weaken; [| |exact E1]; lia.
  - injection E as _ <-. apply extends_refl.
Qed.

Lemma GetTableCount_reads length m n tr :
  GetTableCount length m [] = Some (n, tr) -> reads_within 0 (length + 256) tr.
Proof.
  intros E. apply count_loop_reads in E; [|lia].
  apply (extends_within _ _ [] tr E). constructor.
Qed.

(** On a region of less than [2 ^ 32 - 1] bytes, the count walk either
    returns a count that an [int] holds or loads a byte behind the buffer. *)
Lemma GetTableCount_run length size m :
  0 <= length < 2 ^ 32 - 1 ->
  (exists n, run_in size (GetTableCount length) m = Some (Returns n)
             /\ 0 <= n < 2 ^ 31 /\ 2 * n <= length + 1
             /\ (0 < length -> 1 <= n) /\ (length = 0 -> n = 0))
  \/ (exists a, run_in size (GetTableCount length) m = Some (OutOfBuffer a)
                /\ size <= a < length + 256).
Proof.
  intros Hl. destruct (GetTableCount_total length m []) as [n [tr [E [H1 H0]]]].
  pose proof (GetTableCount_bound length m n tr (proj1 Hl) E) as B.
  pose proof (GetTableCount_reads length m n tr E) as W.
  destruct (run_in_cases (GetTableCount length) m size n tr E) as [[R _]|[a [R [Ha N]]]].
  - left. exists n. split; [exact R|].
    assert (0 <= n) by (destruct (Z.lt_ge_cases 0 length); [apply H1 in H | ]; lia).
    repeat split; lia.
  - right. exists a. split; [exact R|].
    unfold reads_within in W. rewrite Forall_forall in W. specialize (W a Ha). lia.
Qed.

Lemma Create_eq d data_size m n tr :
  data_size <> 0 ->
  GetTableCount (length d) m [] = Some (n, tr) ->
  Create (Some d) data_size m []
  = Some (if n =? 0 then NoStructures
          else Created {| data_ := d; data_size_ := data_size; table_count_ := n |},
          tr).
Proof.
  intros Hs E. unfold Create. replace (data_size =? 0) with false by lia.
  rd_simpl. rewrite E. destruct (n =? 0); reflexivity.
Qed.

(** ** Where a wellformed string list ends *)

Import Blob.

Lemma double_zero_cons b rest :
  double_zero (b :: rest) =
  if (b =? 0) && (hd 1 rest =? 0) then Some O
  else option_map S (double_zero rest).
Proof.
  destruct rest as [|c rest]; cbn [double_zero hd].
  - rewrite andb_false_r. reflexivity.
  - reflexivity.
Qed.

Lemma double_zero_chars t : forall X,
  forallb (fun c => (1 <=? c) && (c <? 256)) t = true ->
  double_zero (t ++ X) = option_map (Nat.add (List.length t)) (double_zero X).
Proof.
  induction t as [|c t IH]; intros X Ht.
  - simpl. destruct (double_zero X); reflexivity.
  - cbn [forallb] in Ht. apply andb_true_iff in Ht. destruct Ht as [Hc Ht].
    cbn [app]. rewrite double_zero_cons.
    replace (c =? 0) with false by (symmetry; apply Z.eqb_neq; lia).
    cbn [andb]. rewrite (IH X Ht). destruct (double_zero X); reflexivity.
Qed.

Lemma wf_string_chars t :
  wf_string t = true ->
  forallb (fun c => (1 <=? c) && (c <? 256)) t = true /\
  exists c t', t = c :: t' /\ 1 <= c < 256.
Proof.
  destruct t as [|c t']; cbn [wf_string]; [discriminate|].
  intros H. split; [exact H|]. exists c, t'. split; [reflexivity|].
  cbn [forallb] in H. lia.
Qed.

Lemma strings_bytes_cons t strs :
  strings_bytes (t :: strs) = t ++ 0 :: strings_bytes strs.
Proof. unfold strings_bytes. cbn [flat_map]. rewrite <- app_assoc. reflexivity. Qed.

(** After the strings and one more 0, two consecutive 0 are found exactly at
    the last terminator. *)
Lemma double_zero_strings strs : forall rest,
  forallb wf_string strs = true -> strs <> [] ->
  double_zero (strings_bytes strs ++ 0 :: rest)
  = Some (List.length (strings_bytes strs) - 1)%nat.
Proof.
  induction strs as [|t strs IH]; intros rest Hwf Hne; [congruence|].
  cbn [forallb] in Hwf. apply andb_true_iff in Hwf. destruct Hwf as [Ht Hs].
  destruct (wf_string_chars t Ht) as [Hc _].
  rewrite strings_bytes_cons, <- app_assoc. cbn [app].
  rewrite (double_zero_chars t _ Hc), double_zero_cons.
  rewrite !List.length_app. cbn [List.length].
  destruct strs as [|t' strs'].
  - cbn [strings_bytes flat_map app hd]. cbn [Z.eqb andb option_map List.length].
    f_equal. lia.
  - destruct (wf_string_chars t') as [_ [c [u [Et Hcr]]]].
    { cbn [forallb] in Hs. apply andb_true_iff in Hs. tauto. }
    rewrite (IH rest Hs) by congruence.
    subst t'. rewrite strings_bytes_cons. cbn [app hd].
    replace (c =? 0) with false by (symmetry; apply Z.eqb_neq; lia).
    rewrite andb_false_r. cbn [option_map List.length]. f_equal.
    rewrite !List.length_app. cbn [List.length]. lia.
Qed.

Lemma double_zero_string_list strs :
  forallb wf_string strs = true ->
  double_zero (string_list strs) = Some (List.length (string_list strs) - 2)%nat.
Proof.
  intros Hwf. destruct strs as [|t strs].
  - reflexivity.
  - unfold string_list. rewrite (double_zero_strings (t :: strs) [] Hwf) by congruence.
    rewrite List.length_app. cbn [List.length]. f_equal. lia.
Qed.

Lemma string_list_length strs : (2 <= List.length (string_list strs))%nat.
Proof.
  destruct strs as [|t strs]; [simpl; lia|].
  unfold string_list. rewrite strings_bytes_cons, !List.length_app. cbn [List.length].
  lia.
Qed.

Lemma string_list_prefix strs :
  exists X, string_list strs = strings_bytes strs ++ 0 :: X.
Proof.
  destruct strs as [|t strs]; [exists [0] | exists []]; reflexivity.
Qed.

Lemma is_byte_true b : is_byte b = true <-> 0 <= b < 256.
Proof. unfold is_byte. lia. Qed.

Lemma strings_bytes_is_byte strs :
  forallb wf_string strs = true -> forallb is_byte (strings_bytes strs) = true.
Proof.
  induction strs as [|t strs IH]; intros Hwf; [reflexivity|].
  cbn [forallb] in Hwf. apply andb_true_iff in Hwf. destruct Hwf as [Ht Hs].
  rewrite strings_bytes_cons, forallb_app. cbn [forallb].
  rewrite (IH Hs), andb_true_r. cbn [is_byte]. 
  destruct (wf_string_chars t Ht) as [Hc _].
  rewrite forallb_forall in *. intros c Hin. specialize (Hc c Hin).
  apply is_byte_true. lia.
Qed.

Lemma string_list_is_byte strs :
  forallb wf_string strs = true -> forallb is_byte (string_list strs) = true.
Proof.
  intros Hwf. destruct strs as [|t strs]; [reflexivity|].
  unfold string_list. rewrite forallb_app, (strings_bytes_is_byte _ Hwf). reflexivity.
Qed.

(** ** The two scans for the end of a string list *)

Lemma strings_end_double_zero m end_ bs : forall k pos fuel tr,
  double_zero bs = Some k -> forallb is_byte bs = true -> holds m pos bs ->
  pos + Z.of_nat k <= end_ -> (k < fuel)%nat ->
  exists tr', strings_end fuel end_ pos m tr = Some (pos + Z.of_nat k, tr')
              /\ extends pos (pos + Z.of_nat k + 2) tr tr'.
Proof.
  induction bs as [|b rest IH]; intros k pos fuel tr Hdz Hb Hm He Hf; [discriminate|].
  destruct fuel as [|fuel]; [lia|].
  rewrite double_zero_cons in Hdz.
  apply holds_cons in Hm. destruct Hm as [Hm0 Hm].
  cbn [forallb] in Hb. apply andb_true_iff in Hb. destruct Hb as [Hb0 Hb].
  apply is_byte_true in Hb0.
  rewrite strings_end_S, Hm0, (u8_id b Hb0).
  destruct rest as [|c rest'].
  - cbn [hd] in Hdz. rewrite andb_false_r in Hdz. discriminate.
  - pose proof Hm as Hm'. apply holds_cons in Hm'. destruct Hm' as [Hm1 _].
    pose proof Hb as Hb'. cbn [forallb] in Hb'. apply andb_true_iff in Hb'.
    destruct Hb' as [Hb1 _]. apply is_byte_true in Hb1.
    rewrite Hm1, (u8_id c Hb1). cbn [hd] in Hdz.
    destruct ((b =? 0) && (c =? 0)) eqn:C; cbn [negb andb].
    + injection Hdz as <-. exists ((pos + 1) :: pos :: tr). split.
      * f_equal. f_equal. lia.
      * apply (extends_cons _ _ pos); [lia|]. apply (extends_cons _ _ (pos + 1)); [lia|].
        apply extends_refl.
    + destruct (double_zero (c :: rest')) as [k'|] eqn:D; [|discriminate].
      injection Hdz as <-.
      replace (pos <? end_) with true by lia.
      destruct (IH k' (pos + 1) fuel ((pos + 1) :: pos :: tr) eq_refl Hb Hm)
        as [tr' [E X]]; [lia|lia|].
      exists tr'. split.
      * rewrite E. f_equal. f_equal. lia.
      * apply (extends_cons _ _ pos); [lia|]. apply (extends_cons _ _ (pos + 1)); [lia|].
        eapply extends_weaken; [| |exact X]; lia.
Qed.

Lemma next_handle_S fuel length next m tr :
  next_handle (S fuel) length next m tr =
  if next - 0 + 1 <? length then
    if negb (u8 (m next) =? 0)
    then next_handle fuel length (next + 1) m (next :: tr)
    else if negb (u8 (m (next + 1)) =? 0)
         then next_handle fuel length (next + 1) m ((next + 1) :: next :: tr)
         else Some (next, (next + 1) :: next :: tr)
  else Some (next, tr).
Proof.
  cbn [next_handle]. rd_simpl.
  destruct (next - 0 + 1 <? length); [|reflexivity].
  destruct (negb (u8 (m next) =? 0)); [reflexivity|].
  destruct (negb (u8 (m (next + 1)) =? 0)); reflexivity.
Qed.

Lemma next_handle_double_zero m length bs : forall k next fuel tr,
  double_zero bs = Some k -> forallb is_byte bs = true -> holds m next bs ->
  next + Z.of_nat k + 2 <= length -> (k < fuel)%nat ->
  exists tr', next_handle fuel length next m tr = Some (next + Z.of_nat k, tr')
              /\ extends next (next + Z.of_nat k + 2) tr tr'.
Proof.
  induction bs as [|b rest IH]; intros k next fuel tr Hdz Hb Hm He Hf; [discriminate|].
  destruct fuel as [|fuel]; [lia|].
  rewrite double_zero_cons in Hdz.
  apply holds_cons in Hm. destruct Hm as [Hm0 Hm].
  cbn [forallb] in Hb. apply andb_true_iff in Hb. destruct Hb as [Hb0 Hb].
  apply is_byte_true in Hb0.
  rewrite next_handle_S, Hm0, (u8_id b Hb0).
  replace (next - 0 + 1 <? length) with true by lia.
  destruct rest as [|c rest'].
  - cbn [hd] in Hdz. rewrite andb_false_r in Hdz. discriminate.
  - pose proof Hm as Hm'. apply holds_cons in Hm'. destruct Hm' as [Hm1 _].
    pose proof Hb as Hb'. cbn [forallb] in Hb'. apply andb_true_iff in Hb'.
    destruct Hb' as [Hb1 _]. apply is_byte_true in Hb1.
    rewrite Hm1, (u8_id c Hb1). cbn [hd] in Hdz.
    destruct (Z.eqb_spec b 0) as [B|B]; cbn [negb andb] in *.
    + destruct (Z.eqb_spec c 0) as [C|C]; cbn [negb] in *.
      * injection Hdz as <-. exists ((next + 1) :: next :: tr). split.
        -- f_equal. f_equal. lia.
        -- apply (extends_cons _ _ next); [lia|].
           apply (extends_cons _ _ (next + 1)); [lia|]. apply extends_refl.
      * destruct (double_zero (c :: rest')) as [k'|] eqn:D; [|discriminate].
        injection Hdz as <-.
        destruct (IH k' (next + 1) fuel ((next + 1) :: next :: tr) eq_refl Hb Hm)
          as [tr' [E X]]; [lia|lia|].
        exists tr'. split.
        -- rewrite E. f_equal. f_equal. lia.
        -- apply (extends_cons _ _ next); [lia|].
           apply (extends_cons _ _ (next + 1)); [lia|].
           eapply extends_weaken; [| |exact X]; lia.
    + destruct (double_zero (c :: rest')) as [k'|] eqn:D; [|discriminate].
      injection Hdz as <-.
      destruct (IH k' (next + 1) fuel (next :: tr) eq_refl Hb Hm)
        as [tr' [E X]]; [lia|lia|].
      exists tr'. split.
      * rewrite E. f_equal. f_equal. lia.
      * apply (extends_cons _ _ next); [lia|].
        eapply extends_weaken; [| |exact X]; lia.
Qed.

(** ** One wellformed structure in memory *)

Lemma wf_structure_parts s :
  wf_structure s = true ->
  0 <= s_type s < 256 /\ 4 <= declared_length s < 256
  /\ forallb wf_string (s_strings s) = true.
Proof.
  unfold wf_structure. rewrite !andb_true_iff, !is_byte_true.
  intros [[[[[Ht _] _] _] Hl] Hs]. unfold declared_length in *.
  split; [lia|]. split; [lia | exact Hs].
Qed.

Lemma size_eq s :
  size s = declared_length s + Z.of_nat (List.length (string_list (s_strings s))).
Proof.
  unfold size, encode, declared_length. cbn [List.length].
  rewrite List.length_app. lia.
Qed.

Lemma size_min s : declared_length s + 2 <= size s.
Proof. rewrite size_eq. pose proof (string_list_length (s_strings s)). lia. Qed.

Lemma holds_encode m p s :
  holds m p (encode s) ->
  m p = s_type s /\ m (p + 1) = declared_length s
  /\ holds m (p + declared_length s) (string_list (s_strings s)).
Proof.
  unfold encode. rewrite !holds_cons, holds_app.
  intros [H0 [H1 [_ [_ [_ H]]]]]. split; [exact H0|]. split; [exact H1|].
  unfold declared_length.
  replace (p + (4 + Z.of_nat (List.length (s_area s))))
    with (p + 1 + 1 + 1 + 1 + Z.of_nat (List.length (s_area s))) by lia.
  exact H.
Qed.

Lemma encode_all_cons s ss : encode_all (s :: ss) = encode s ++ encode_all ss.
Proof. reflexivity. Qed.

Lemma encode_all_length_cons s ss :
  Z.of_nat (List.length (encode_all (s :: ss)))
  = size s + Z.of_nat (List.length (encode_all ss)).
Proof. rewrite encode_all_cons, List.length_app. unfold size. lia. Qed.

Lemma encode_all_length_min ss :
  forallb wf_structure ss = true ->
  6 * Z.of_nat (List.length ss) <= Z.of_nat (List.length (encode_all ss)).
Proof.
  induction ss as [|s ss IH]; intros Hwf; [simpl; lia|].
  cbn [forallb] in Hwf. apply andb_true_iff in Hwf. destruct Hwf as [Hs Hss].
  rewrite encode_all_length_cons. cbn [List.length].
  pose proof (size_min s). pose proof (wf_structure_parts s Hs). specialize (IH Hss). lia.
Qed.

(** ** GetTableCount on a wellformed blob *)

Lemma count_loop_structure m end_ s fuel p count tr :
  wf_structure s = true -> holds m p (encode s) -> p + size s <= end_ ->
  exists tr', count_loop (S fuel) end_ p count m tr
              = count_loop fuel end_ (p + size s) (count + 1) m tr'
              /\ extends p (p + size s) tr tr'.
Proof.
  intros Hwf Hm He.
  destruct (wf_structure_parts s Hwf) as [_ [Hl Hs]].
  destruct (holds_encode m p s Hm) as [_ [H1 Hsl]].
  pose proof (size_eq s) as Hsz. pose proof (string_list_length (s_strings s)) as H2.
  rewrite count_loop_S. replace (p <? end_) with true by lia.
  rewrite H1, (u8_id (declared_length s)) by lia.
  destruct (strings_end_double_zero m end_ (string_list (s_strings s))
              (List.length (string_list (s_strings s)) - 2)%nat
              (p + declared_length s)
              (S (Z.to_nat (end_ - (p + declared_length s)))) ((p + 1) :: tr))
    as [tr' [E X]].
  - apply double_zero_string_list, Hs.
  - apply string_list_is_byte, Hs.
  - exact Hsl.
  - lia.
  - lia.
  - rewrite E. exists tr'. split.
    + f_equal. lia.
    + apply (extends_cons _ _ (p + 1)); [lia|].
      eapply extends_weaken; [| |exact X]; lia.
Qed.

Lemma count_loop_blob m ss : forall fuel end_ p count tr,
  forallb wf_structure ss = true -> holds m p (encode_all ss) ->
  end_ = p + Z.of_nat (List.length (encode_all ss)) ->
  (List.length ss < fuel)%nat ->
  exists tr', count_loop fuel end_ p count m tr
              = Some (count + Z.of_nat (List.length ss), tr')
              /\ extends p end_ tr tr'.
Proof.
  induction ss as [|s ss IH]; intros fuel end_ p count tr Hwf Hm He Hf;
    (destruct fuel as [|fuel]; [simpl in Hf; lia|]).
  - rewrite count_loop_S. cbn [encode_all flat_map List.length] in *.
    replace (p <? end_) with false by lia.
    exists tr. split; [f_equal; f_equal; lia | apply extends_refl].
  - cbn [forallb] in Hwf. apply andb_true_iff in Hwf. destruct Hwf as [Hs Hss].
    rewrite encode_all_cons in Hm. apply holds_app in Hm. destruct Hm as [Hm1 Hm2].
    rewrite encode_all_length_cons in He. fold (size s) in Hm2.
    pose proof (size_min s) as Hmin. pose proof (wf_structure_parts s Hs) as Hp.
    destruct (count_loop_structure m end_ s fuel p count tr Hs Hm1) as [tr1 [E1 X1]]; [lia|].
    destruct (IH fuel end_ (p + size s) (count + 1) tr1 Hss Hm2) as [tr2 [E2 X2]];
      [lia | simpl in Hf; lia |].
    exists tr2. split.
    + rewrite E1, E2. cbn [List.length]. f_equal. f_equal. lia.
    + eapply extends_trans.
      * eapply extends_weaken; [| |exact X1]; lia.
      * eapply extends_weaken; [| |exact X2]; lia.
Qed.

Lemma GetTableCount_blob m ss :
  forallb wf_structure ss = true -> holds m 0 (encode_all ss) ->
  exists tr, GetTableCount (Z.of_nat (List.length (encode_all ss))) m []
             = Some (Z.of_nat (List.length ss), tr)
             /\ reads_within 0 (Z.of_nat (List.length (encode_all ss))) tr.
Proof.
  intros Hwf Hm. unfold GetTableCount.
  destruct (count_loop_blob m ss (S (Z.to_nat (Z.of_nat (List.length (encode_all ss)))))
              (Z.of_nat (List.length (encode_all ss))) 0 0 [] Hwf Hm) as [tr [E X]].
  - lia.
  - pose proof (encode_all_length_min ss Hwf). lia.
  - exists tr. split; [exact E|]. apply (extends_within _ _ _ _ X). constructor.
Qed.

(** N structures followed by the marker are N + 1 structures for
    [GetTableCount]: the marker is counted. *)
Lemma GetTableCount_counts_marker (ss : list structure) (e : structure) (m : mem) :
  forallb wf_structure (ss ++ [e]) = true ->
  holds m 0 (encode_all (ss ++ [e])) ->
  value_of (GetTableCount (Z.of_nat (List.length (encode_all (ss ++ [e]))))) m
  = Some (Z.of_nat (List.length ss) + 1).
Proof.
  intros Hwf Hm. destruct (GetTableCount_blob m _ Hwf Hm) as [tr [E _]].
  rewrite (value_of_Some _ _ _ _ E), List.length_app. cbn [List.length].
  f_equal. lia.
Qed.

(** ** GetTable on any memory *)

Lemma table_loop_S fuel length table_count type pos table_index m tr :
  table_loop (S fuel) length table_count type pos table_index m tr =
  if (table_index <? table_count) && (pos + 4 <=? length) then
    if u8 (m (pos + 1)) <? 4 then
      Some ({| found := None; exit_pos := pos; exit_index := table_index;
               invalid_length := true |}, (pos + 1) :: pos :: tr)
    else if u8 (m pos) =? type then
      Some ({| found := Some pos; exit_pos := pos; exit_index := table_index;
               invalid_length := false |}, (pos + 1) :: pos :: tr)
    else if u8 (m pos) =? TABLE_TYPE_END_OF_TABLE then
      Some ({| found := None; exit_pos := pos; exit_index := table_index;
               invalid_length := false |}, (pos + 1) :: pos :: tr)
    else
      match next_handle (S (Z.to_nat (length - (pos + u8 (m (pos + 1))))))
                        length (pos + u8 (m (pos + 1))) m ((pos + 1) :: pos :: tr) with
      | Some (next, tr') =>
          table_loop fuel length table_count type (next + 2) (table_index + 1) m tr'
      | None => None
      end
  else
    Some ({| found := None; exit_pos := pos; exit_index := table_index;
             invalid_length := false |}, tr).
Proof.
  cbn [table_loop]. rd_simpl.
  destruct ((table_index <? table_count) && (pos + 4 <=? length)); [|reflexivity].
  destruct (u8 (m (pos + 1)) <? 4); [reflexivity|].
  destruct (u8 (m pos) =? type); [reflexivity|].
  destruct (u8 (m pos) =? TABLE_TYPE_END_OF_TABLE); reflexivity.
Qed.

Lemma next_handle_safe fuel : forall length next m tr,
  0 <= next -> (Z.to_nat (length - next) < fuel)%nat ->
  exists v tr', next_handle fuel length next m tr = Some (v, tr')
                /\ next <= v /\ extends 0 length tr tr'.
Proof.
  induction fuel as [|fuel IH]; intros length next m tr H0 Hf; [lia|].
  rewrite next_handle_S. destruct (Z.ltb_spec (next - 0 + 1) length) as [L|L].
  - destruct (negb (u8 (m next) =? 0)).
    + destruct (IH length (next + 1) m (next :: tr)) as [v [tr' [E [Hv X]]]]; [lia|lia|].
      exists v, tr'. split; [exact E|]. split; [lia|].
      apply (extends_cons _ _ next); [lia | exact X].
    + destruct (negb (u8 (m (next + 1)) =? 0)).
      * destruct (IH length (next + 1) m ((next + 1) :: next :: tr))
          as [v [tr' [E [Hv X]]]]; [lia|lia|].
        exists v, tr'. split; [exact E|]. split; [lia|].
        apply (extends_cons _ _ next); [lia|].
        apply (extends_cons _ _ (next + 1)); [lia | exact X].
      * exists next, ((next + 1) :: next :: tr). split; [reflexivity|]. split; [lia|].
        apply (extends_cons _ _ next); [lia|].
        apply (extends_cons _ _ (next + 1)); [lia | apply extends_refl].
  - exists next, tr. split; [reflexivity|]. split; [lia | apply extends_refl].
Qed.

(** The walk returns on every memory, reads inside the region only, and
    what it finds is a structure of the type, four bytes or more inside the
    region, whose declared length is 4 or more. *)
Lemma table_loop_safe fuel : forall length table_count type pos table_index m tr,
  0 <= pos -> (Z.to_nat (table_count - table_index) < fuel)%nat ->
  exists e tr',
    table_loop fuel length table_count type pos table_index m tr = Some (e, tr')
    /\ extends 0 length tr tr'
    /\ (forall p, found e = Some p ->
          0 <= p /\ p + 4 <= length /\ u8 (m p) = type /\ 4 <= u8 (m (p + 1))).
Proof.
  induction fuel as [|fuel IH]; intros length tc type pos idx m tr H0 Hf; [lia|].
  rewrite table_loop_S.
  destruct ((idx <? tc) && (pos + 4 <=? length)) eqn:C.
  - apply andb_true_iff in C. destruct C as [C1 C2].
    apply Z.ltb_lt in C1. apply Z.leb_le in C2.
    assert (X0 : extends 0 length tr ((pos + 1) :: pos :: tr)).
    { apply (extends_cons _ _ pos); [lia|].
      apply (extends_cons _ _ (pos + 1)); [lia | apply extends_refl]. }
    destruct (Z.ltb_spec (u8 (m (pos + 1))) 4) as [L|L].
    { eexists _, _. split; [reflexivity|]. split; [exact X0|]. cbn. discriminate. }
    destruct (Z.eqb_spec (u8 (m pos)) type) as [T|T].
    { eexists _, _. split; [reflexivity|]. split; [exact X0|]. cbn.
      intros p [= <-]. lia. }
    destruct (u8 (m pos) =? TABLE_TYPE_END_OF_TABLE).
    { eexists _, _. split; [reflexivity|]. split; [exact X0|]. cbn. discriminate. }
    pose proof (u8_range (m (pos + 1))) as Hb.
    destruct (next_handle_safe (S (Z.to_nat (length - (pos + u8 (m (pos + 1))))))
                length (pos + u8 (m (pos + 1))) m ((pos + 1) :: pos :: tr))
      as [v [tr1 [E [Hv X1]]]]; [lia|lia|].
    rewrite E.
    destruct (IH length tc type (v + 2) (idx + 1) m tr1) as [e [tr2 [E2 [X2 F]]]];
      [lia|lia|].
    exists e, tr2. split; [exact E2|]. split; [|exact F].
    eapply extends_trans; [exact X0|]. eapply extends_trans; [exact X1 | exact X2].
  - eexists _, _. split; [reflexivity|]. split; [apply extends_refl|]. cbn. discriminate.
Qed.

(** A walk that stops on an invalid length has found nothing, and stopped
    on a structure it visited whose declared length is below 4. *)
Lemma table_loop_invalid fuel : forall length table_count type pos table_index m tr e tr',
  table_loop fuel length table_count type pos table_index m tr = Some (e, tr') ->
  invalid_length e = true ->
  found e = None /\ exit_index e < table_count /\ exit_pos e + 4 <= length
  /\ u8 (m (exit_pos e + 1)) < 4.
Proof.
  induction fuel as [|fuel IH]; intros length tc type pos idx m tr e tr' E Hi;
    [discriminate|].
  rewrite table_loop_S in E.
  destruct ((idx <? tc) && (pos + 4 <=? length)) eqn:C.
  - apply andb_true_iff in C. destruct C as [C1 C2].
    apply Z.ltb_lt in C1. apply Z.leb_le in C2.
    destruct (Z.ltb_spec (u8 (m (pos + 1))) 4) as [L|L].
    { injection E as <- _. cbn. auto. }
    destruct (u8 (m pos) =? type).
    { injection E as <- _. discriminate Hi. }
    destruct (u8 (m pos) =? TABLE_TYPE_END_OF_TABLE).
    { injection E as <- _. discriminate Hi. }
    destruct (next_handle _ _ _ _ _) as [[next tr1]|]; [|discriminate].
    exact (IH _ _ _ _ _ _ _ _ _ E Hi).
  - injection E as <- _. discriminate Hi.
Qed.

Lemma GetTable_walk_safe s type m :
  exists e tr,
    GetTable_walk s type m [] = Some (e, tr)
    /\ reads_within 0 (length (data_ s)) tr
    /\ (forall p, found e = Some p ->
          0 <= p /\ p + 4 <= length (data_ s) /\ u8 (m p) = type
          /\ 4 <= u8 (m (p + 1))).
Proof.
  unfold GetTable_walk.
  destruct (table_loop_safe (S (Z.to_nat (table_count_ s))) (length (data_ s))
              (table_count_ s) type 0 0 m []) as [e [tr [E [X F]]]]; [lia|lia|].
  exists e, tr. split; [exact E|]. split; [|exact F].
  apply (extends_within _ _ _ _ X). constructor.
Qed.

(** ** GetTable on wellformed structures *)

Lemma table_loop_structure m length table_count type s fuel p table_index tr :
  wf_structure s = true -> holds m p (encode s) -> p + size s <= length ->
  table_index < table_count ->
  s_type s <> type -> s_type s <> TABLE_TYPE_END_OF_TABLE ->
  exists tr',
    table_loop (S fuel) length table_count type p table_index m tr
    = table_loop fuel length table_count type (p + size s) (table_index + 1) m tr'
    /\ extends p (p + size s) tr tr'.
Proof.
  intros Hwf Hm He Hi Ht He127.
  destruct (wf_structure_parts s Hwf) as [Hty [Hl Hs]].
  destruct (holds_encode m p s Hm) as [H0 [H1 Hsl]].
  pose proof (size_eq s) as Hsz. pose proof (string_list_length (s_strings s)) as H2.
  rewrite table_loop_S, H0, H1, (u8_id (s_type s)), (u8_id (declared_length s)) by lia.
  replace ((table_index <? table_count) && (p + 4 <=? length)) with true
    by (symmetry; apply andb_true_iff; split; [apply Z.ltb_lt | apply Z.leb_le]; lia).
  replace (declared_length s <? 4) with false by lia.
  replace (s_type s =? type) with false by lia.
  replace (s_type s =? TABLE_TYPE_END_OF_TABLE) with false by lia.
  destruct (next_handle_double_zero m length (string_list (s_strings s))
              (List.length (string_list (s_strings s)) - 2)%nat
              (p + declared_length s)
              (S (Z.to_nat (length - (p + declared_length s))))
              ((p + 1) :: p :: tr))
    as [tr' [E X]].
  - apply double_zero_string_list, Hs.
  - apply string_list_is_byte, Hs.
  - exact Hsl.
  - lia.
  - lia.
  - rewrite E. exists tr'. split.
    + f_equal. lia.
    + apply (extends_cons _ _ p); [lia|]. apply (extends_cons _ _ (p + 1)); [lia|].
      eapply extends_weaken; [| |exact X]; lia.
Qed.

Lemma table_loop_blob m length table_count type ss : forall fuel p table_index tr,
  forallb wf_structure ss = true -> holds m p (encode_all ss) ->
  length = p + Z.of_nat (List.length (encode_all ss)) ->
  table_index + Z.of_nat (List.length ss) <= table_count ->
  (List.length ss < fuel)%nat ->
  exists e tr',
    table_loop fuel length table_count type p table_index m tr = Some (e, tr')
    /\ found e = first_match ss p type /\ extends p length tr tr'.
Proof.
  induction ss as [|s ss IH]; intros fuel p idx tr Hwf Hm He Hi Hf;
    (destruct fuel as [|fuel]; [simpl in Hf; lia|]).
  - rewrite table_loop_S. cbn [encode_all flat_map List.length] in He.
    replace (p + 4 <=? length) with false by lia. rewrite andb_false_r.
    eexists _, _. split; [reflexivity|]. split; [reflexivity | apply extends_refl].
  - cbn [forallb] in Hwf. apply andb_true_iff in Hwf. destruct Hwf as [Hs Hss].
    rewrite encode_all_cons in Hm. apply holds_app in Hm. destruct Hm as [Hm1 Hm2].
    rewrite encode_all_length_cons in He. fold (size s) in Hm2.
    pose proof (size_min s) as Hmin.
    destruct (wf_structure_parts s Hs) as [Hty [Hl _]].
    destruct (holds_encode m p s Hm1) as [H0 [H1 _]].
    cbn [List.length] in Hi, Hf. cbn [first_match].
    assert (X0 : extends p length tr ((p + 1) :: p :: tr)).
    { apply (extends_cons _ _ p); [lia|].
      apply (extends_cons _ _ (p + 1)); [lia | apply extends_refl]. }
    destruct (Z.eqb_spec (s_type s) type) as [T|T].
    { rewrite table_loop_S, H0, H1, (u8_id (s_type s)), (u8_id (declared_length s)) by lia.
      replace ((idx <? table_count) && (p + 4 <=? length)) with true
        by (symmetry; apply andb_true_iff; split; [apply Z.ltb_lt | apply Z.leb_le]; lia).
      replace (declared_length s <? 4) with false by lia.
      replace (s_type s =? type) with true by lia.
      eexists _, _. split; [reflexivity|]. split; [reflexivity | exact X0]. }
    destruct (Z.eqb_spec (s_type s) 127) as [M|M].
    { rewrite table_loop_S, H0, H1, (u8_id (s_type s)), (u8_id (declared_length s)) by lia.
      replace ((idx <? table_count) && (p + 4 <=? length)) with true
        by (symmetry; apply andb_true_iff; split; [apply Z.ltb_lt | apply Z.leb_le]; lia).
      replace (declared_length s <? 4) with false by lia.
      replace (s_type s =? type) with false by lia.
      replace (s_type s =? TABLE_TYPE_END_OF_TABLE) with true
        by (unfold TABLE_TYPE_END_OF_TABLE; lia).
      eexists _, _. split; [reflexivity|]. split; [reflexivity | exact X0]. }
    destruct (table_loop_structure m length table_count type s fuel p idx tr Hs Hm1)
      as [tr1 [E1 X1]]; [lia|lia|exact T|exact M|].
    destruct (IH fuel (p + size s) (idx + 1) tr1 Hss Hm2) as [e [tr2 [E2 [F2 X2]]]];
      [lia|lia|lia|].
    exists e, tr2. split; [rewrite E1; exact E2|]. split; [exact F2|].
    eapply extends_trans.
    + eapply extends_weaken; [| |exact X1]; lia.
    + eapply extends_weaken; [| |exact X2]; lia.
Qed.

(** Over structures that are neither of the type nor the marker the walk
    goes on to what follows them. *)
Lemma table_loop_prefix m length table_count type ss : forall fuel p table_index tr,
  forallb wf_structure ss = true -> holds m p (encode_all ss) ->
  p + Z.of_nat (List.length (encode_all ss)) <= length ->
  table_index + Z.of_nat (List.length ss) <= table_count ->
  (forall x, In x ss -> s_type x <> type /\ s_type x <> TABLE_TYPE_END_OF_TABLE) ->
  exists tr',
    table_loop (List.length ss + fuel) length table_count type p table_index m tr
    = table_loop fuel length table_count type
        (p + Z.of_nat (List.length (encode_all ss)))
        (table_index + Z.of_nat (List.length ss)) m tr'
    /\ extends p (p + Z.of_nat (List.length (encode_all ss))) tr tr'.
Proof.
  induction ss as [|s ss IH]; intros fuel p idx tr Hwf Hm He Hi Hno.
  - cbn [encode_all flat_map List.length Nat.add]. rewrite !Z.add_0_r.
    exists tr. split; [reflexivity | apply extends_refl].
  - cbn [forallb] in Hwf. apply andb_true_iff in Hwf. destruct Hwf as [Hs Hss].
    rewrite encode_all_cons in Hm. apply holds_app in Hm. destruct Hm as [Hm1 Hm2].
    rewrite encode_all_length_cons in *. fold (size s) in Hm2.
    pose proof (size_min s) as Hmin.
    destruct (wf_structure_parts s Hs) as [Hty [Hl _]].
    cbn [List.length Nat.add] in *.
    pose proof (encode_all_length_min ss Hss) as Hall.
    destruct (Hno s (or_introl eq_refl)) as [T M].
    destruct (table_loop_structure m length table_count type s
                (List.length ss + fuel) p idx tr Hs Hm1) as [tr1 [E1 X1]];
      [lia|lia|exact T|exact M|].
    destruct (IH fuel (p + size s) (idx + 1) tr1 Hss Hm2) as [tr2 [E2 X2]];
      [lia|lia| intros x Hx; apply Hno; right; exact Hx |].
    exists tr2. split.
    + rewrite E1, E2. f_equal; lia.
    + eapply extends_trans.
      * eapply extends_weaken; [| |exact X1]; lia.
      * eapply extends_weaken; [| |exact X2]; lia.
Qed.

(** ** What [first_match] says *)

Lemma encode_all_app ss1 ss2 :
  encode_all (ss1 ++ ss2) = encode_all ss1 ++ encode_all ss2.
Proof. unfold encode_all. apply flat_map_app. Qed.

(** The first structure of the type, with neither the type nor the marker
    before it, is the one located. *)
Lemma first_match_first pre s post : forall off type,
  s_type s = type ->
  Forall (fun x => s_type x <> type /\ s_type x <> 127) pre ->
  first_match (pre ++ s :: post) off type
  = Some (off + Z.of_nat (List.length (encode_all pre))).
Proof.
  induction pre as [|x pre IH]; intros off type Hs Hpre.
  - cbn. replace (s_type s =? type) with true by lia. f_equal. lia.
  - inversion Hpre as [|? ? [Hx Hm] Hpre']; subst.
    cbn [app first_match].
    replace (s_type x =? s_type s) with false by lia.
    replace (s_type x =? 127) with false by lia.
    rewrite IH by auto. rewrite encode_all_length_cons. f_equal. lia.
Qed.

(** Without a structure of the type nothing is located. *)
Lemma first_match_absent ss : forall off type,
  Forall (fun x => s_type x <> type) ss -> first_match ss off type = None.
Proof.
  induction ss as [|x ss IH]; intros off type H; [reflexivity|].
  inversion H as [|? ? Hx H']; subst. cbn [first_match].
  replace (s_type x =? type) with false by lia.
  destruct (s_type x =? 127); [reflexivity | apply IH, H'].
Qed.

(** Behind the marker nothing is located. *)
Lemma first_match_behind_marker pre e post : forall off type,
  s_type e = 127 -> type <> 127 ->
  Forall (fun x => s_type x <> type) pre ->
  first_match (pre ++ e :: post) off type = None.
Proof.
  induction pre as [|x pre IH]; intros off type He Ht Hpre.
  - cbn. replace (s_type e =? type) with false by lia.
    replace (s_type e =? 127) with true by lia. reflexivity.
  - inversion Hpre as [|? ? Hx Hpre']; subst. cbn [app first_match].
    replace (s_type x =? type) with false by lia.
    destruct (s_type x =? 127); [reflexivity | apply IH; assumption].
Qed.

(** ** GetString on a wellformed string list *)

Lemma strlen_S fuel s m tr :
  Table.strlen (S fuel) s m tr =
  if u8 (m s) =? 0 then Some (0, s :: tr)
  else match Table.strlen fuel (s + 1) m (s :: tr) with
       | Some (n, tr') => Some (n + 1, tr')
       | None => None
       end.
Proof.
  cbn [Table.strlen]. rd_simpl. destruct (u8 (m s) =? 0); reflexivity.
Qed.

Lemma c_str_S fuel s m tr :
  Table.c_str (S fuel) s m tr =
  if u8 (m s) =? 0 then Some ([], s :: tr)
  else match Table.c_str fuel (s + 1) m (s :: tr) with
       | Some (rest, tr') => Some (u8 (m s) :: rest, tr')
       | None => None
       end.
Proof.
  cbn [Table.c_str]. rd_simpl. destruct (u8 (m s) =? 0); reflexivity.
Qed.

Lemma skip_strings_S fuel turns string handle m tr :
  Table.skip_strings fuel (S turns) string handle m tr =
  if 1 <? handle then
    if negb (u8 (m string) =? 0) then
      match Table.strlen fuel string m (string :: tr) with
      | Some (n, tr') =>
          Table.skip_strings fuel turns (string + n + 1) (handle - 1) m tr'
      | None => None
      end
    else Some (string, string :: tr)
  else Some (string, tr).
Proof.
  cbn [Table.skip_strings]. rd_simpl.
  destruct (1 <? handle); [|reflexivity].
  destruct (negb (u8 (m string) =? 0)); reflexivity.
Qed.

Lemma strlen_chars m t : forall X s fuel tr,
  forallb (fun c => (1 <=? c) && (c <? 256)) t = true ->
  holds m s (t ++ 0 :: X) -> (List.length t < fuel)%nat ->
  exists tr', Table.strlen fuel s m tr = Some (Z.of_nat (List.length t), tr')
              /\ extends s (s + Z.of_nat (List.length t) + 1) tr tr'.
Proof.
  induction t as [|c t IH]; intros X s fuel tr Ht Hm Hf;
    (destruct fuel as [|fuel]; [simpl in Hf; lia|]);
    cbn [app] in Hm; apply holds_cons in Hm; destruct Hm as [H0 Hm];
    rewrite strlen_S, H0.
  - cbn. exists (s :: tr). split; [reflexivity|].
    apply (extends_cons _ _ s); [lia | apply extends_refl].
  - cbn [forallb] in Ht. apply andb_true_iff in Ht. destruct Ht as [Hc Ht].
    rewrite (u8_id c) by lia.
    replace (c =? 0) with false by lia.
    destruct (IH X (s + 1) fuel (s :: tr) Ht Hm) as [tr' [E Xt]]; [simpl in Hf; lia|].
    rewrite E. exists tr'. cbn [List.length]. split; [f_equal; f_equal; lia|].
    apply (extends_cons _ _ s); [lia|].
    eapply extends_weaken; [| |exact Xt]; lia.
Qed.

Lemma c_str_chars m t : forall X s fuel tr,
  forallb (fun c => (1 <=? c) && (c <? 256)) t = true ->
  holds m s (t ++ 0 :: X) -> (List.length t < fuel)%nat ->
  exists tr', Table.c_str fuel s m tr = Some (t, tr')
              /\ extends s (s + Z.of_nat (List.length t) + 1) tr tr'.
Proof.
  induction t as [|c t IH]; intros X s fuel tr Ht Hm Hf;
    (destruct fuel as [|fuel]; [simpl in Hf; lia|]);
    cbn [app] in Hm; apply holds_cons in Hm; destruct Hm as [H0 Hm];
    rewrite c_str_S, H0.
  - cbn. exists (s :: tr). split; [reflexivity|].
    apply (extends_cons _ _ s); [lia | apply extends_refl].
  - cbn [forallb] in Ht. apply andb_true_iff in Ht. destruct Ht as [Hc Ht].
    rewrite (u8_id c) by lia.
    replace (c =? 0) with false by lia.
    destruct (IH X (s + 1) fuel (s :: tr) Ht Hm) as [tr' [E Xt]]; [simpl in Hf; lia|].
    rewrite E. exists tr'. cbn [List.length]. split; [reflexivity|].
    apply (extends_cons _ _ s); [lia|].
    eapply extends_weaken; [| |exact Xt]; lia.
Qed.

Lemma strings_bytes_length_cons t strs :
  Z.of_nat (List.length (strings_bytes (t :: strs)))
  = Z.of_nat (List.length t) + 1 + Z.of_nat (List.length (strings_bytes strs)).
Proof. rewrite strings_bytes_cons, List.length_app. cbn [List.length]. lia. Qed.

(** The loop stops at the string the handle asks for, or at the 0 that ends
    the list when there are not that many strings. *)
Lemma skip_strings_list m fuel strs : forall X turns string handle tr,
  forallb wf_string strs = true ->
  holds m string (strings_bytes strs ++ 0 :: X) ->
  (List.length (strings_bytes strs) < fuel)%nat ->
  handle <= Z.of_nat turns -> (1 <= turns)%nat ->
  exists tr',
    Table.skip_strings fuel turns string handle m tr
    = Some (string + Z.of_nat (List.length
              (strings_bytes (firstn (Z.to_nat (handle - 1)) strs))), tr')
    /\ extends string (string + Z.of_nat (List.length (strings_bytes strs)) + 1) tr tr'.
Proof.
  induction strs as [|t strs IH]; intros X turns string handle tr Hwf Hm Hf Ht H1;
    (destruct turns as [|turns]; [lia|]); rewrite skip_strings_S.
  - rewrite firstn_nil. cbn [strings_bytes flat_map List.length app] in *.
    apply holds_cons in Hm. destruct Hm as [H0 _]. rewrite H0. cbn [u8 Z.modulo Z.div_eucl Z.eqb negb].
    rewrite Z.add_0_r.
    destruct (1 <? handle).
    + exists (string :: tr). split; [reflexivity|].
      apply (extends_cons _ _ string); [lia | apply extends_refl].
    + exists tr. split; [reflexivity | apply extends_refl].
  - cbn [forallb] in Hwf. apply andb_true_iff in Hwf. destruct Hwf as [Hwt Hs].
    destruct (wf_string_chars t Hwt) as [Hc [c [u [Et Hcr]]]].
    rewrite strings_bytes_length_cons in *.
    destruct (Z.ltb_spec 1 handle) as [L|L].
    + rewrite strings_bytes_cons, <- app_assoc in Hm. cbn [app] in Hm.
      assert (H0 : m string = c).
      { subst t. cbn [app] in Hm. apply holds_cons in Hm. tauto. }
      rewrite H0, (u8_id c) by lia.
      replace (c =? 0) with false by lia. cbn [negb].
      destruct (strlen_chars m t _ string fuel (string :: tr) Hc Hm) as [tr1 [E1 X1]].
      { rewrite strings_bytes_cons, List.length_app in Hf. lia. }
      rewrite E1.
      apply holds_app in Hm. destruct Hm as [_ Hm]. apply holds_cons in Hm.
      destruct Hm as [_ Hm].
      destruct (IH X turns (string + Z.of_nat (List.length t) + 1) (handle - 1) tr1 Hs Hm)
        as [tr2 [E2 X2]].
      { rewrite strings_bytes_cons, List.length_app in Hf. cbn [List.length] in Hf. lia. }
      { lia. }
      { lia. }
      rewrite E2. exists tr2. split.
      * f_equal. f_equal.
        replace (Z.to_nat (handle - 1)) with (S (Z.to_nat (handle - 1 - 1))) by lia.
        cbn [firstn]. rewrite strings_bytes_length_cons. lia.
      * apply (extends_cons _ _ string); [lia|].
        eapply extends_trans.
        -- eapply extends_weaken; [| |exact X1]; lia.
        -- eapply extends_weaken; [| |exact X2]; lia.
    + replace (Z.to_nat (handle - 1)) with O by lia. cbn [firstn strings_bytes flat_map List.length].
      exists tr. split; [f_equal; f_equal; lia | apply extends_refl].
Qed.

Lemma extends_Forall (P : Z -> Prop) lo hi tr tr' :
  extends lo hi tr tr' -> (forall a, lo <= a < hi -> P a) -> Forall P tr -> Forall P tr'.
Proof.
  intros [new [E W]] HP H. subst tr'. apply Forall_app. split; [|exact H].
  eapply Forall_impl; [|exact W]. exact HP.
Qed.

Lemma GetString_eq fuel data_ offset m tr :
  Table.GetString fuel data_ offset m tr =
  if u8 (m (data_ + offset)) =? 0 then Some ([], (data_ + offset) :: tr)
  else
    match Table.skip_strings fuel 256 (data_ + u8 (m (data_ + 1)))
            (u8 (m (data_ + offset))) m ((data_ + 1) :: (data_ + offset) :: tr) with
    | Some (string, tr') =>
        if u8 (m string) =? 0 then Some ([], string :: tr')
        else if u8 (m (string + 0)) =? 0 then Some ([], (string + 0) :: string :: tr')
             else Table.c_str fuel string m ((string + 0) :: string :: tr')
    | None => None
    end.
Proof.
  unfold Table.GetString, Table.GetByte. rd_simpl.
  destruct (u8 (m (data_ + offset)) =? 0); [reflexivity|].
  destruct (Table.skip_strings _ _ _ _ _ _) as [[string tr']|]; [|reflexivity].
  destruct (u8 (m string) =? 0); [reflexivity|].
  destruct (u8 (m (string + 0)) =? 0); reflexivity.
Qed.

Lemma strings_bytes_app l1 l2 :
  strings_bytes (l1 ++ l2) = strings_bytes l1 ++ strings_bytes l2.
Proof. unfold strings_bytes. apply flat_map_app. Qed.

(** On a structure whose string list is wellformed, [GetString] returns the
    string the handle asks for, the empty text when the handle is 0 or past
    the last string, and reads the handle, the declared length and bytes of
    the string list only. *)
Lemma GetString_strings m fuel data_ offset strs X :
  forallb wf_string strs = true ->
  holds m (data_ + u8 (m (data_ + 1))) (strings_bytes strs ++ 0 :: X) ->
  (List.length (strings_bytes strs) < fuel)%nat ->
  exists tr,
    Table.GetString fuel data_ offset m [] =
      Some (if u8 (m (data_ + offset)) =? 0 then []
            else nth (Z.to_nat (u8 (m (data_ + offset)) - 1)) strs [], tr)
    /\ Forall (fun a => a = data_ + offset \/ a = data_ + 1 \/
                        data_ + u8 (m (data_ + 1)) <= a
                        < data_ + u8 (m (data_ + 1))
                          + Z.of_nat (List.length (strings_bytes strs)) + 1) tr.
Proof.
  intros Hwf Hm Hf. rewrite GetString_eq.
  set (string := data_ + u8 (m (data_ + 1))) in *.
  set (k := u8 (m (data_ + offset))).
  set (P := fun a => a = data_ + offset \/ a = data_ + 1 \/
                     string <= a < string + Z.of_nat (List.length (strings_bytes strs)) + 1).
  pose proof (u8_range (m (data_ + offset))) as Hk. fold k in Hk.
  destruct (Z.eqb_spec k 0) as [K|K].
  { eexists. split; [reflexivity|]. constructor; [left; reflexivity | constructor]. }
  destruct (skip_strings_list m fuel strs X 256 string k
              [data_ + 1; data_ + offset] Hwf Hm Hf) as [tr1 [E1 X1]]; [lia|lia|].
  rewrite E1.
  assert (F1 : Forall P tr1).
  { apply (extends_Forall P _ _ _ _ X1).
    - intros a Ha. right. right. exact Ha.
    - constructor; [right; left; reflexivity|]. constructor; [left; reflexivity | constructor]. }
  set (j := Z.to_nat (k - 1)) in *.
  destruct (Nat.lt_ge_cases j (List.length strs)) as [J|J].
  - destruct (nth_split strs [] J) as [l1 [l2 [Es Hl1]]].
    set (t := nth j strs []) in *.
    assert (Hwt : wf_string t = true).
    { rewrite forallb_forall in Hwf. apply Hwf. apply nth_In. exact J. }
    destruct (wf_string_chars t Hwt) as [Hc [c [u [Et Hcr]]]].
    assert (Ef : firstn j strs = l1).
    { rewrite Es, <- Hl1, firstn_app, Nat.sub_diag, firstn_all. cbn [firstn].
      apply app_nil_r. }
    rewrite Ef.
    assert (Hlen : Z.of_nat (List.length (strings_bytes strs))
                   = Z.of_nat (List.length (strings_bytes l1))
                     + Z.of_nat (List.length t) + 1
                     + Z.of_nat (List.length (strings_bytes l2))).
    { rewrite Es, strings_bytes_app, List.length_app, Nat2Z.inj_add,
        strings_bytes_length_cons. lia. }
    rewrite Es, strings_bytes_app, strings_bytes_cons, <- !app_assoc in Hm.
    apply holds_app in Hm. destruct Hm as [_ Hm]. cbn [app] in Hm.
    set (string' := string + Z.of_nat (List.length (strings_bytes l1))) in *.
    assert (H0 : m string' = c).
    { rewrite Et in Hm. cbn [app] in Hm. apply holds_cons in Hm. tauto. }
    rewrite Z.add_0_r, H0, (u8_id c) by lia.
    replace (c =? 0) with false by lia.
    destruct (c_str_chars m t _ string' fuel (string' :: string' :: tr1) Hc Hm)
      as [tr2 [E2 X2]].
    { rewrite Es, strings_bytes_app, strings_bytes_cons, !List.length_app in Hf. lia. }
    rewrite E2. exists tr2. split; [reflexivity|].
    apply (extends_Forall P _ _ _ _ X2).
    + intros a Ha. right. right. lia.
    + assert (Ps : P string') by (right; right; unfold string'; lia).
      constructor; [exact Ps|]. constructor; [exact Ps | exact F1].
  - rewrite (firstn_all2 strs J).
    apply holds_app in Hm. destruct Hm as [_ Hm]. apply holds_cons in Hm.
    destruct Hm as [H0 _]. rewrite H0. cbn [u8 Z.modulo Z.div_eucl Z.eqb].
    rewrite (nth_overflow strs [] J).
    eexists. split; [reflexivity|].
    constructor; [|exact F1]. right. right. lia.
Qed.

(** ** Flag words and feature lists *)

Lemma flag_testbit x i :
  0 <= i -> negb (Z.land x (Z.shiftl 1 i) =? 0) = Z.testbit x i.
Proof.
  intros Hi. rewrite Z.shiftl_1_l.
  destruct (Z.testbit x i) eqn:B.
  - apply negb_true_iff, Z.eqb_neq. intros H.
    assert (T : Z.testbit (Z.land x (2 ^ i)) i = true)
      by (rewrite Z.land_spec, B, Z.pow2_bits_true by lia; reflexivity).
    rewrite H, Z.bits_0 in T. discriminate.
  - apply negb_false_iff, Z.eqb_eq. apply Z.bits_inj'. intros n Hn.
    rewrite Z.land_spec, Z.bits_0, Z.pow2_bits_eqb by lia.
    destruct (Z.eqb_spec i n) as [->|N]; [rewrite B; reflexivity | apply andb_false_r].
Qed.


(** The loop over the bits appends one pair a bit, in ascending order. *)
Lemma emplace_flags_map turns : forall i base flags names feature_list,
  0 <= i ->
  emplace_flags turns i base flags names feature_list =
  feature_list ++
  map (fun j => (nth (Z.to_nat (i + Z.of_nat j - base)) names EmptyString,
                 Z.testbit flags (i + Z.of_nat j))) (seq 0 turns).
Proof.
  induction turns as [|turns IH]; intros i base flags names fl Hi.
  - cbn. symmetry. apply app_nil_r.
  - cbn [emplace_flags]. rewrite IH by lia. rewrite flag_testbit by lia.
    rewrite <- app_assoc. f_equal. cbn [seq map app]. rewrite Z.add_0_r. f_equal.
    rewrite <- seq_shift, map_map. apply map_ext. intros j.
    replace (i + 1 + Z.of_nat j) with (i + Z.of_nat (S j)) by lia. reflexivity.
Qed.



(** ** The scan of the sixteen UUID bytes *)

Lemma uuid_scan_S turns ptr i only_0xFF only_0x00 m tr :
  SystemTable.uuid_scan (S turns) ptr i only_0xFF only_0x00 m tr =
  if (i <? 16) && (only_0x00 || only_0xFF) then
    SystemTable.uuid_scan turns ptr (i + 1)
      (if negb (u8 (m (ptr + i)) =? 0xFF) then false else only_0xFF)
      (if negb (u8 (m (ptr + i)) =? 0x00) then false else only_0x00)
      m ((ptr + i) :: (ptr + i) :: tr)
  else Some ((only_0xFF, only_0x00), tr).
Proof.
  cbn [SystemTable.uuid_scan]. rd_simpl.
  destruct ((i <? 16) && (only_0x00 || only_0xFF)); reflexivity.
Qed.

Lemma uuid_scan_flags m ptr : forall n i0 only_0xFF only_0x00 tr,
  (i0 + n = 16)%nat ->
  exists tr',
    SystemTable.uuid_scan (S n) ptr (Z.of_nat i0) only_0xFF only_0x00 m tr =
    Some ((only_0xFF && forallb (fun j => u8 (m (ptr + Z.of_nat j)) =? 0xFF) (seq i0 n),
           only_0x00 && forallb (fun j => u8 (m (ptr + Z.of_nat j)) =? 0x00) (seq i0 n)),
          tr').
Proof.
  induction n as [|n IH]; intros i0 fFF f00 tr Hi; rewrite uuid_scan_S.
  - replace (Z.of_nat i0 <? 16) with false by lia. cbn [andb seq forallb].
    rewrite !andb_true_r. eexists. reflexivity.
  - replace (Z.of_nat i0 <? 16) with true by lia. cbn [andb].
    destruct (f00 || fFF) eqn:C.
    + destruct (IH (S i0)
                  (if negb (u8 (m (ptr + Z.of_nat i0)) =? 255) then false else fFF)
                  (if negb (u8 (m (ptr + Z.of_nat i0)) =? 0) then false else f00)
                  ((ptr + Z.of_nat i0) :: (ptr + Z.of_nat i0) :: tr)) as [tr' E]; [lia|].
      replace (Z.of_nat i0 + 1) with (Z.of_nat (S i0)) by lia.
      rewrite E. exists tr'. f_equal. f_equal. cbn [seq forallb].
      destruct (u8 (m (ptr + Z.of_nat i0)) =? 255), (u8 (m (ptr + Z.of_nat i0)) =? 0),
        fFF, f00; reflexivity.
    + apply orb_false_iff in C. destruct C as [-> ->]. eexists. reflexivity.
Qed.

Lemma load_each_map ptr idx : forall m tr,
  exists tr', SystemTable.load_each ptr idx m tr
              = Some (map (fun i => u8 (m (ptr + i))) idx, tr').
Proof.
  induction idx as [|i idx IH]; intros m tr.
  - eexists. reflexivity.
  - cbn [SystemTable.load_each]. rd_simpl.
    destruct (IH m ((ptr + i) :: tr)) as [tr' E]. rewrite E.
    eexists. reflexivity.
Qed.

Lemma uuid_all_iff m data_ b :
  forallb (fun j => u8 (m (data_ + 8 + Z.of_nat j)) =? b) (seq 0 16) = true
  <-> SystemTable.uuid_bytes m data_ = repeat b 16.
Proof.
  unfold SystemTable.uuid_bytes.
  cbn [seq forallb map repeat Z.of_nat Pos.of_succ_nat Pos.succ].
  rewrite !andb_true_iff, !Z.eqb_eq. split.
  - intros H. repeat match goal with H : _ /\ _ |- _ => destruct H end. congruence.
  - intros H. injection H. intros. repeat split; assumption.
Qed.

Lemma GetUUID_eq m data_ major minor :
  value_of (SystemTable.GetUUID data_ major minor) m =
  Some (if u8 (m (data_ + 1)) <? 0x19 then EmptyString
        else if forallb (fun j => u8 (m (data_ + 8 + Z.of_nat j)) =? 0xFF) (seq 0 16)
                || forallb (fun j => u8 (m (data_ + 8 + Z.of_nat j)) =? 0x00) (seq 0 16)
        then EmptyString
        else SystemTable.StringPrintf_uuid
               (map (fun i => u8 (m (data_ + 8 + i)))
                    (if 0x0206 <=? Z.shiftl major 8 + minor
                     then [3; 2; 1; 0; 5; 4; 7; 6; 8; 9; 10; 11; 12; 13; 14; 15]
                     else [0; 1; 2; 3; 4; 5; 6; 7; 8; 9; 10; 11; 12; 13; 14; 15]))).
Proof.
  unfold value_of, SystemTable.GetUUID, Table.GetByte. rd_simpl.
  destruct (u8 (m (data_ + 1)) <? 25); [reflexivity|].
  destruct (uuid_scan_flags m (data_ + 8) 16 0 true true [data_ + 1] eq_refl) as [tr E].
  change (Z.of_nat 0) with 0 in E. rewrite E. cbn [andb].
  destruct (forallb _ _ || forallb _ _); [reflexivity|].
  destruct (0x0206 <=? Z.shiftl major 8 + minor).
  - destruct (load_each_map (data_ + 8)
                [3; 2; 1; 0; 5; 4; 7; 6; 8; 9; 10; 11; 12; 13; 14; 15] m tr) as [tr' E'].
    rewrite E'. reflexivity.
  - destruct (load_each_map (data_ + 8)
                [0; 1; 2; 3; 4; 5; 6; 7; 8; 9; 10; 11; 12; 13; 14; 15] m tr) as [tr' E'].
    rewrite E'. reflexivity.
Qed.

(** ** Sample runs *)

Example GetTableCount_blob_mem :
  value_of (GetTableCount 17) Examples.blob_mem = Some 2.
Proof. reflexivity. Qed.

Example GetTableCount_blob_mem_in_buffer :
  run_in 17 (GetTableCount 17) Examples.blob_mem = Some (Returns 2).
Proof. reflexivity. Qed.

Example GetTableCount_one_byte_past_the_buffer :
  run_in 1 (GetTableCount 1) (place [0] (fun _ => 0)) = Some (OutOfBuffer 1)
  /\ run_in 4 (GetTableCount 1) (place [0] (fun _ => 0)) = Some (Returns 1).
Proof. split; reflexivity. Qed.

Example GetTable_blob_mem_marker :
  value_of (Table.make {| data_ := {| smbios_major_version := 2;
                                      smbios_minor_version := 6;
                                      length := 17 |};
                          data_size_ := 25; table_count_ := 2 |} 127)
           Examples.blob_mem = Some (Some 11).
Proof. reflexivity. Qed.

Example GetString_blob_mem_manufacturer :
  value_of (Table.GetString 8 0 0x04) Examples.blob_mem = Some [65].
Proof. reflexivity. Qed.

Example GetString_second_string :
  value_of (Table.GetString 8 0 0x04)
           (place [0; 5; 0; 0; 2; 65; 0; 66; 67; 0; 0] Examples.outside)
  = Some [66; 67].
Proof. reflexivity. Qed.

Example GetRuntimeSize_segment_E000 :
  value_of (BiosTable.GetRuntimeSize 0)
           (place [0; 0x12; 0; 0; 0; 0; 0x00; 0xE0] Examples.outside)
  = Some 0x20000.
Proof. reflexivity. Qed.

Example GetFeatures_hosting_removable :
  value_of (BaseboardTable.GetFeatures 0)
           (place [2; 0x0A; 0; 0; 0; 0; 0; 0; 0; 0x05] Examples.outside)
  = Some [ ("Board is a hosting board"%string, true);
           ("Board requires at least one daughter board"%string, false);
           ("Board is removable"%string, true);
           ("Board is replaceable"%string, false);
           ("Board is hot swappable"%string, false) ].
Proof. reflexivity. Qed.

(** * The claims *)

(** C1.  On a wellformed blob, that is N structures with a four-byte header
    each and a string list that ends with two consecutive 0, the last of
    them the end-of-table marker, in a region that ends right after the last
    structure, [GetTableCount] returns exactly N. *)
Theorem GetTableCount_wellformed (ss : list structure) (m : mem) :
  wellformed ss = true ->
  holds m 0 (encode_all ss) ->
  value_of (GetTableCount (Z.of_nat (List.length (encode_all ss)))) m
  = Some (Z.of_nat (List.length ss)).
Proof.
  intros Hwf Hm. unfold wellformed in Hwf.
  apply andb_true_iff in Hwf. destruct Hwf as [Hwf _].
  apply andb_true_iff in Hwf. destruct Hwf as [Hwf _].
  destruct (GetTableCount_blob m ss Hwf Hm) as [tr [E _]].
  exact (value_of_Some _ _ _ _ E).
Qed.

Lemma GetTableCount_wellformed_witness :
  wellformed Examples.blob = true
  /\ holds Examples.blob_mem 0 (encode_all Examples.blob)
  /\ value_of (GetTableCount (Z.of_nat (List.length (encode_all Examples.blob))))
              Examples.blob_mem = Some 2.
Proof.
  split; [reflexivity|]. split; [apply holdsb_true; reflexivity|].
  apply (GetTableCount_wellformed Examples.blob Examples.blob_mem);
    [reflexivity | apply holdsb_true; reflexivity].
Defined.

(** C2.  [GetTable] returns on every memory, and an offset it returns is
    that of a structure of the type asked for.  On a blob of wellformed
    structures, the object that [Create] builds locates the first structure
    of the type: [GetTable] returns its offset, and [nullptr] when there is
    no such structure or when the end-of-table marker comes before it; a
    later structure of the type is never returned. *)
Theorem GetTable_first_match :
  (forall (s : SMBios) (type : Z) (m : mem),
      exists r,
        value_of (GetTable s type) m = Some (s, r)
        /\ (forall p, r = Some p ->
               0 <= p /\ p + 4 <= length (data_ s) /\ u8 (m p) = type))
  /\ (forall (ss : list structure) (m : mem) (major minor data_size type : Z),
         forallb wf_structure ss = true ->
         ss <> [] ->
         Z.of_nat (List.length (encode_all ss)) < 2 ^ 32 ->
         data_size <> 0 ->
         holds m 0 (encode_all ss) ->
         exists s,
           value_of (Create (Some {| smbios_major_version := major;
                                     smbios_minor_version := minor;
                                     length := Z.of_nat (List.length (encode_all ss)) |})
                            data_size) m = Some (Created s)
           /\ value_of (GetTable s type) m = Some (s, first_match ss 0 type)).
Proof.
  split.
  - intros s type m. destruct (GetTable_walk_safe s type m) as [e [tr [E [_ F]]]].
    exists (found e). split.
    + unfold value_of, GetTable. rd_simpl. rewrite E. reflexivity.
    + intros p Hp. destruct (F p Hp) as [H0 [H4 [Ht _]]]. auto.
  - intros ss m major minor data_size type Hwf Hne Hlen Hs Hm.
    destruct (GetTableCount_blob m ss Hwf Hm) as [tr [E _]].
    assert (Hn : (Z.of_nat (List.length ss) =? 0) = false).
    { apply Z.eqb_neq. destruct ss as [|x ss']; [congruence|].
      cbn [List.length]. lia. }
    eexists. split.
    + unfold value_of, Create. replace (data_size =? 0) with false by lia.
      rd_simpl. cbn [length]. rewrite E, Hn. reflexivity.
    + unfold value_of, GetTable, GetTable_walk. rd_simpl.
      cbn [data_ length table_count_].
      destruct (table_loop_blob m (Z.of_nat (List.length (encode_all ss)))
                  (Z.of_nat (List.length ss)) type ss
                  (S (Z.to_nat (Z.of_nat (List.length ss)))) 0 0 [] Hwf Hm)
        as [e [tr' [E' [F _]]]]; [lia|lia|lia|].
      rewrite E', F. reflexivity.
Qed.

Lemma GetTable_first_match_witness :
  (exists r,
      value_of (GetTable Examples.truncated_smbios 0) Examples.truncated_mem
      = Some (Examples.truncated_smbios, r)
      /\ (forall p, r = Some p ->
             0 <= p /\ p + 4 <= length (data_ Examples.truncated_smbios)
             /\ u8 (Examples.truncated_mem p) = 0))
  /\ (exists s,
         value_of (Create (Some {| smbios_major_version := 2;
                                   smbios_minor_version := 6;
                                   length := Z.of_nat (List.length
                                               (encode_all Examples.blob)) |})
                          25) Examples.blob_mem = Some (Created s)
         /\ value_of (GetTable s 127) Examples.blob_mem
            = Some (s, first_match Examples.blob 0 127)).
Proof.
  split.
  - apply (proj1 GetTable_first_match).
  - apply (proj2 GetTable_first_match Examples.blob Examples.blob_mem 2 6 25 127).
    + reflexivity.
    + discriminate.
    + vm_compute. reflexivity.
    + lia.
    + apply holdsb_true. reflexivity.
Defined.

(** C3, as it stands, fails.  On a region of one byte the count walk reads
    the offsets 1, 170 and 171; and on a structure that [GetTable] locates,
    whose string is cut by the end of a region of seven bytes, [GetString]
    reads the offset 7. *)
Lemma reads_outside_region :
  reads_of (GetTableCount 1) (place [0] Examples.outside) = Some [171; 170; 1]
  /\ reads_withinb 0 1 [171; 170; 1] = false
  /\ value_of (Create (Some (data_ Examples.truncated_smbios)) 15) Examples.truncated_mem
     = Some (Created Examples.truncated_smbios)
  /\ value_of (GetTable Examples.truncated_smbios 0) Examples.truncated_mem
     = Some (Examples.truncated_smbios, Some 0)
  /\ reads_of (Table.GetString 8 0 4) Examples.truncated_mem
     = Some [7; 6; 5; 5; 5; 1; 4]
  /\ reads_withinb 0 7 [7; 6; 5; 5; 5; 1; 4] = false.
Proof. repeat split; vm_compute; reflexivity. Qed.

(** C3, amended.  The walk of [GetTable] returns on every memory and reads
    inside the announced region only; the count walk reads inside the region
    when the blob is made of wellformed structures; and [GetString], on a
    wellformed structure and at an offset of its formatted area, reads bytes
    of that structure only. *)
Theorem reads_inside_region :
  (forall (s : SMBios) (type : Z) (m : mem),
      exists tr, reads_of (GetTable_walk s type) m = Some tr
                 /\ reads_within 0 (length (data_ s)) tr)
  /\ (forall (ss : list structure) (m : mem),
         forallb wf_structure ss = true ->
         holds m 0 (encode_all ss) ->
         exists tr,
           reads_of (GetTableCount (Z.of_nat (List.length (encode_all ss)))) m = Some tr
           /\ reads_within 0 (Z.of_nat (List.length (encode_all ss))) tr)
  /\ (forall (st : structure) (m : mem) (p offset : Z) (fuel : nat),
         wf_structure st = true ->
         holds m p (encode st) ->
         0 <= offset < declared_length st ->
         (List.length (encode st) < fuel)%nat ->
         exists tr,
           reads_of (Table.GetString fuel p offset) m = Some tr
           /\ reads_within p (p + size st) tr).
Proof.
  split; [|split].
  - intros s type m. destruct (GetTable_walk_safe s type m) as [e [tr [E [W _]]]].
    exists tr. split; [exact (reads_of_Some _ _ _ _ E) | exact W].
  - intros ss m Hwf Hm. destruct (GetTableCount_blob m ss Hwf Hm) as [tr [E W]].
    exists tr. split; [exact (reads_of_Some _ _ _ _ E) | exact W].
  - intros st m p offset fuel Hwf Hm Ho Hf.
    destruct (wf_structure_parts st Hwf) as [_ [Hl Hs]].
    destruct (holds_encode m p st Hm) as [_ [H1 Hsl]].
    destruct (string_list_prefix (s_strings st)) as [X EX].
    pose proof (size_eq st) as Hsz. rewrite EX in Hsz, Hsl.
    rewrite List.length_app in Hsz. cbn [List.length] in Hsz.
    assert (Hu : u8 (m (p + 1)) = declared_length st) by (rewrite H1; apply u8_id; lia).
    rewrite <- Hu in Hsl.
    destruct (GetString_strings m fuel p offset (s_strings st) X Hs Hsl) as [tr [E F]].
    { unfold size in Hsz. lia. }
    exists tr. split; [exact (reads_of_Some _ _ _ _ E)|].
    eapply Forall_impl; [|exact F]. cbv beta. rewrite Hu. intros a Ha. lia.
Qed.

Lemma reads_inside_region_witness :
  (exists tr, reads_of (GetTable_walk Examples.truncated_smbios 1) Examples.truncated_mem
              = Some tr
              /\ reads_within 0 (length (data_ Examples.truncated_smbios)) tr)
  /\ (exists tr,
         reads_of (GetTableCount (Z.of_nat (List.length (encode_all Examples.blob))))
                  Examples.blob_mem = Some tr
         /\ reads_within 0 (Z.of_nat (List.length (encode_all Examples.blob))) tr)
  /\ (exists tr,
         reads_of (Table.GetString 12 0 4) Examples.blob_mem = Some tr
         /\ reads_within 0 (0 + size Examples.bios) tr).
Proof.
  split; [|split].
  - apply (proj1 reads_inside_region).
  - apply (proj1 (proj2 reads_inside_region) Examples.blob Examples.blob_mem).
    + reflexivity.
    + apply holdsb_true. reflexivity.
  - apply (proj2 (proj2 reads_inside_region) Examples.bios Examples.blob_mem 0 4 12%nat).
    + reflexivity.
    + apply holdsb_true. reflexivity.
    + vm_compute. split; [discriminate | reflexivity].
    + vm_compute. lia.
Defined.

(** C4.  [GetString] returns the empty text when the byte at the offset is
    0, and also when that byte is an index k that is not 0 while the string
    list of the structure has fewer than k strings before the 0 that ends
    it. *)
Theorem GetString_empty :
  (forall (m : mem) (data_ offset : Z) (fuel : nat),
      u8 (m (data_ + offset)) = 0 ->
      value_of (Table.GetString fuel data_ offset) m = Some [])
  /\ (forall (m : mem) (data_ offset : Z) (fuel : nat) (strs : list (list Z))
             (X : list Z),
         forallb wf_string strs = true ->
         holds m (data_ + u8 (m (data_ + 1))) (strings_bytes strs ++ 0 :: X) ->
         Z.of_nat (List.length strs) < u8 (m (data_ + offset)) ->
         (List.length (strings_bytes strs) < fuel)%nat ->
         value_of (Table.GetString fuel data_ offset) m = Some []).
Proof.
  split.
  - intros m data_ offset fuel K. unfold value_of. rewrite GetString_eq, K. reflexivity.
  - intros m data_ offset fuel strs X Hwf Hm Hk Hf.
    destruct (GetString_strings m fuel data_ offset strs X Hwf Hm Hf) as [tr [E _]].
    rewrite (value_of_Some _ _ _ _ E).
    replace (u8 (m (data_ + offset)) =? 0) with false by lia.
    rewrite nth_overflow by lia. reflexivity.
Qed.

Lemma GetString_empty_witness :
  value_of (Table.GetString 0 0 4) (place [0; 5; 0; 0; 0; 65; 0; 0] Examples.outside)
  = Some []
  /\ value_of (Table.GetString 8 0 4)
              (place [0; 5; 0; 0; 3; 65; 0; 66; 67; 0; 0] Examples.outside)
     = Some [].
Proof.
  split.
  - apply (proj1 GetString_empty). reflexivity.
  - apply (proj2 GetString_empty _ 0 4 8%nat [[65]; [66; 67]] []).
    + reflexivity.
    + apply holdsb_true. reflexivity.
    + vm_compute. reflexivity.
    + vm_compute. lia.
Defined.

(** C5.  A walk of [GetTable] that stops on a declared length below 4 finds
    nothing: [GetTable] returns [nullptr].  It does stop there when it comes
    to such a structure before any structure of the type asked for and
    before the marker.  The object, and with it the count that [Create]
    stored, is as it was. *)
Theorem GetTable_invalid_length :
  (forall (s : SMBios) (type : Z) (m : mem),
      exists e,
        value_of (GetTable_walk s type) m = Some e
        /\ value_of (GetTable s type) m = Some (s, found e)
        /\ (invalid_length e = true ->
            found e = None /\ u8 (m (exit_pos e + 1)) < 4))
  /\ (forall (s : SMBios) (type : Z) (ss : list structure) (m : mem),
         forallb wf_structure ss = true ->
         forallb (fun x => negb (s_type x =? type)
                           && negb (s_type x =? TABLE_TYPE_END_OF_TABLE)) ss = true ->
         holds m 0 (encode_all ss) ->
         u8 (m (Z.of_nat (List.length (encode_all ss)) + 1)) < 4 ->
         Z.of_nat (List.length (encode_all ss)) + 4 <= length (data_ s) ->
         Z.of_nat (List.length ss) < table_count_ s ->
         exists e,
           value_of (GetTable_walk s type) m = Some e
           /\ found e = None
           /\ exit_pos e = Z.of_nat (List.length (encode_all ss))
           /\ exit_index e = Z.of_nat (List.length ss)
           /\ invalid_length e = true
           /\ value_of (GetTable s type) m = Some (s, None)).
Proof.
  split.
  - intros s type m. destruct (GetTable_walk_safe s type m) as [e [tr [E _]]].
    exists e. split; [exact (value_of_Some _ _ _ _ E)|]. split.
    + unfold value_of, GetTable. rd_simpl. rewrite E. reflexivity.
    + intros Hi. unfold GetTable_walk in E.
      destruct (table_loop_invalid _ _ _ _ _ _ _ _ _ _ E Hi) as [F [_ [_ L]]]. auto.
  - intros s type ss m Hwf Hno Hm Hshort Hlen Htc.
    assert (Hno' : forall x, In x ss ->
                     s_type x <> type /\ s_type x <> TABLE_TYPE_END_OF_TABLE).
    { rewrite forallb_forall in Hno. intros x Hx. specialize (Hno x Hx). lia. }
    assert (E : exists tr,
               GetTable_walk s type m [] =
               Some ({| found := None;
                        exit_pos := Z.of_nat (List.length (encode_all ss));
                        exit_index := Z.of_nat (List.length ss);
                        invalid_length := true |}, tr)).
    { unfold GetTable_walk.
      replace (S (Z.to_nat (table_count_ s)))
        with (List.length ss + S (Z.to_nat (table_count_ s) - List.length ss))%nat by lia.
      destruct (table_loop_prefix m (length (data_ s)) (table_count_ s) type ss
                  (S (Z.to_nat (table_count_ s) - List.length ss)) 0 0 []
                  Hwf Hm) as [tr [E _]]; [lia|lia|exact Hno'|].
      rewrite E, table_loop_S. rewrite !Z.add_0_l.
      replace ((Z.of_nat (List.length ss) <? table_count_ s)
               && (Z.of_nat (List.length (encode_all ss)) + 4 <=? length (data_ s)))
        with true
        by (symmetry; apply andb_true_iff; split; [apply Z.ltb_lt | apply Z.leb_le]; lia).
      replace (u8 (m (Z.of_nat (List.length (encode_all ss)) + 1)) <? 4) with true by lia.
      eexists. reflexivity. }
    destruct E as [tr E]. eexists. split; [exact (value_of_Some _ _ _ _ E)|].
    repeat (split; [reflexivity|]).
    unfold value_of, GetTable. rd_simpl. rewrite E. reflexivity.
Qed.

Lemma GetTable_invalid_length_witness :
  (exists e,
      value_of (GetTable_walk Examples.short_smbios 1) Examples.short_mem = Some e
      /\ value_of (GetTable Examples.short_smbios 1) Examples.short_mem
         = Some (Examples.short_smbios, found e)
      /\ (invalid_length e = true ->
          found e = None /\ u8 (Examples.short_mem (exit_pos e + 1)) < 4))
  /\ (exists e,
         value_of (GetTable_walk Examples.short_smbios 1) Examples.short_mem = Some e
         /\ found e = None
         /\ exit_pos e = Z.of_nat (List.length (encode_all [Examples.bios]))
         /\ exit_index e = Z.of_nat (List.length [Examples.bios])
         /\ invalid_length e = true
         /\ value_of (GetTable Examples.short_smbios 1) Examples.short_mem
            = Some (Examples.short_smbios, None)).
Proof.
  split.
  - apply (proj1 GetTable_invalid_length).
  - apply (proj2 GetTable_invalid_length Examples.short_smbios 1 [Examples.bios]
             Examples.short_mem).
    + reflexivity.
    + reflexivity.
    + apply holdsb_true. reflexivity.
    + vm_compute. reflexivity.
    + vm_compute. discriminate.
    + vm_compute. reflexivity.
Defined.

(** C6, as it stands, fails: a declared length of 0x18 covers the sixteen
    UUID bytes, at the offsets 0x08 to 0x17, and with the bytes 01 to 10
    there [GetUUID] still returns the empty text. *)
Lemma GetUUID_length_0x18 :
  u8 (Examples.system_mem 0x18 (0 + 0x01)) = 0x18
  /\ SystemTable.uuid_bytes (Examples.system_mem 0x18) 0
     = [1; 2; 3; 4; 5; 6; 7; 8; 9; 10; 11; 12; 13; 14; 15; 16]
  /\ value_of (SystemTable.GetUUID 0 2 6) (Examples.system_mem 0x18)
     = Some EmptyString.
Proof. repeat split. Qed.

(** C6, amended.  [GetUUID] returns the empty text when the declared length
    is below 0x19, and when the sixteen bytes at offset 0x08 are all 0x00 or
    all 0xFF; otherwise it prints the sixteen bytes in hexadecimal, in the
    order 3, 2, 1, 0, 5, 4, 7, 6, 8 to 15 when [(major << 8) + minor] is
    0x0206 or more and in the order 0 to 15 below that.  With the bytes 01
    to 10 that is 04030201-0605-0807-090A-0B0C0D0E0F10 for version 2.6 and
    01020304-0506-0708-090A-0B0C0D0E0F10 for version 2.0. *)
Theorem GetUUID_text :
  (forall (m : mem) (data_ major minor : Z),
      u8 (m (data_ + 0x01)) < 0x19 ->
      value_of (SystemTable.GetUUID data_ major minor) m = Some EmptyString)
  /\ (forall (m : mem) (data_ major minor : Z),
         SystemTable.uuid_bytes m data_ = repeat 0x00 16 ->
         value_of (SystemTable.GetUUID data_ major minor) m = Some EmptyString)
  /\ (forall (m : mem) (data_ major minor : Z),
         SystemTable.uuid_bytes m data_ = repeat 0xFF 16 ->
         value_of (SystemTable.GetUUID data_ major minor) m = Some EmptyString)
  /\ (forall (m : mem) (data_ major minor : Z),
         0x19 <= u8 (m (data_ + 0x01)) ->
         SystemTable.uuid_bytes m data_ <> repeat 0x00 16 ->
         SystemTable.uuid_bytes m data_ <> repeat 0xFF 16 ->
         value_of (SystemTable.GetUUID data_ major minor) m =
         Some (SystemTable.StringPrintf_uuid
                 (map (fun i => nth i (SystemTable.uuid_bytes m data_) 0)
                      (if 0x0206 <=? Z.shiftl major 8 + minor
                       then [3; 2; 1; 0; 5; 4; 7; 6; 8; 9; 10; 11; 12; 13; 14; 15]%nat
                       else [0; 1; 2; 3; 4; 5; 6; 7; 8; 9; 10; 11; 12; 13; 14; 15]%nat))))
  /\ (forall (m : mem) (data_ : Z),
         0x19 <= u8 (m (data_ + 0x01)) ->
         SystemTable.uuid_bytes m data_
         = [1; 2; 3; 4; 5; 6; 7; 8; 9; 10; 11; 12; 13; 14; 15; 16] ->
         value_of (SystemTable.GetUUID data_ 2 6) m
         = Some "04030201-0605-0807-090A-0B0C0D0E0F10"%string
         /\ value_of (SystemTable.GetUUID data_ 2 0) m
            = Some "01020304-0506-0708-090A-0B0C0D0E0F10"%string).
Proof.
  assert (General : forall (m : mem) (data_ major minor : Z),
             0x19 <= u8 (m (data_ + 0x01)) ->
             SystemTable.uuid_bytes m data_ <> repeat 0x00 16 ->
             SystemTable.uuid_bytes m data_ <> repeat 0xFF 16 ->
             value_of (SystemTable.GetUUID data_ major minor) m =
             Some (SystemTable.StringPrintf_uuid
                     (map (fun i => nth i (SystemTable.uuid_bytes m data_) 0)
                          (if 0x0206 <=? Z.shiftl major 8 + minor
                           then [3; 2; 1; 0; 5; 4; 7; 6; 8; 9; 10; 11; 12; 13; 14; 15]%nat
                           else [0; 1; 2; 3; 4; 5; 6; 7; 8; 9; 10; 11; 12; 13; 14; 15]%nat)))).
  { intros m data_ major minor HL H0 HF. rewrite GetUUID_eq.
    replace (u8 (m (data_ + 1)) <? 25) with false by lia.
    destruct (forallb (fun j => u8 (m (data_ + 8 + Z.of_nat j)) =? 255) (seq 0 16)) eqn:FF.
    { apply uuid_all_iff in FF. contradiction. }
    destruct (forallb (fun j => u8 (m (data_ + 8 + Z.of_nat j)) =? 0) (seq 0 16)) eqn:F0.
    { apply uuid_all_iff in F0. contradiction. }
    cbn [orb]. destruct (0x0206 <=? Z.shiftl major 8 + minor); reflexivity. }
  split; [|split; [|split; [|split; [exact General|]]]].
  - intros m data_ major minor HL. rewrite GetUUID_eq.
    replace (u8 (m (data_ + 1)) <? 25) with true by lia. reflexivity.
  - intros m data_ major minor H0. rewrite GetUUID_eq.
    apply uuid_all_iff in H0. rewrite H0, orb_true_r.
    destruct (u8 (m (data_ + 1)) <? 25); reflexivity.
  - intros m data_ major minor HF. rewrite GetUUID_eq.
    apply uuid_all_iff in HF. rewrite HF. cbn [orb].
    destruct (u8 (m (data_ + 1)) <? 25); reflexivity.
  - intros m data_ HL HB. split.
    + rewrite General, HB; [reflexivity | exact HL | rewrite HB; discriminate
                            | rewrite HB; discriminate].
    + rewrite General, HB; [reflexivity | exact HL | rewrite HB; discriminate
                            | rewrite HB; discriminate].
Qed.

Lemma GetUUID_text_witness :
  value_of (SystemTable.GetUUID 0 2 6) (Examples.system_mem 0x08) = Some EmptyString
  /\ value_of (SystemTable.GetUUID 0 2 6)
              (place ([1; 0x19; 0; 0; 0; 0; 0; 0] ++ repeat 0x00 16 ++ [6])
                     Examples.outside) = Some EmptyString
  /\ value_of (SystemTable.GetUUID 0 2 6)
              (place ([1; 0x19; 0; 0; 0; 0; 0; 0] ++ repeat 0xFF 16 ++ [6])
                     Examples.outside) = Some EmptyString
  /\ value_of (SystemTable.GetUUID 0 2 8) (Examples.system_mem 0x19)
     = Some "04030201-0605-0807-090A-0B0C0D0E0F10"%string
  /\ value_of (SystemTable.GetUUID 0 2 6) (Examples.system_mem 0x1B)
     = Some "04030201-0605-0807-090A-0B0C0D0E0F10"%string
  /\ value_of (SystemTable.GetUUID 0 2 0) (Examples.system_mem 0x1B)
     = Some "01020304-0506-0708-090A-0B0C0D0E0F10"%string.
Proof.
  destruct GetUUID_text as [A [B [C [D E]]]].
  split; [|split; [|split; [|split]]].
  - apply A. vm_compute. reflexivity.
  - apply B. reflexivity.
  - apply C. reflexivity.
  - apply (D (Examples.system_mem 0x19) 0 2 8).
    + vm_compute. discriminate.
    + vm_compute. discriminate.
    + vm_compute. discriminate.
  - apply (E (Examples.system_mem 0x1B) 0).
    + vm_compute. discriminate.
    + reflexivity.
Defined.



(** C8, as it stands, fails: a feature byte that is present and is not 0,
    but has none of its five low bits set, gives the empty list. *)
Lemma GetFeatures_high_bits_only :
  u8 (place [2; 0x0A; 0; 0; 0; 0; 0; 0; 0; 0x20] Examples.outside (0 + 1)) = 0x0A
  /\ u8 (place [2; 0x0A; 0; 0; 0; 0; 0; 0; 0; 0x20] Examples.outside (0 + 9)) = 0x20
  /\ value_of (BaseboardTable.GetFeatures 0)
              (place [2; 0x0A; 0; 0; 0; 0; 0; 0; 0; 0x20] Examples.outside)
     = Some [].
Proof. repeat split. Qed.

(** C8, amended.  [GetFeatures] returns the empty list exactly when the
    declared length is below 0x0A or none of the bits 0 to 4 of the feature
    byte at offset 0x09 is set; otherwise it returns five pairs, one for each
    of the bits 0 to 4, in ascending order. *)
Theorem GetFeatures_list (m : mem) (data_ : Z) :
  value_of (BaseboardTable.GetFeatures data_) m =
  Some (if (u8 (m (data_ + 0x01)) <? 0x0A)
           || (Z.land (u8 (m (data_ + 0x09))) 0x1F =? 0)
        then []
        else [ ("Board is a hosting board"%string,
                Z.testbit (u8 (m (data_ + 0x09))) 0);
               ("Board requires at least one daughter board"%string,
                Z.testbit (u8 (m (data_ + 0x09))) 1);
               ("Board is removable"%string,
                Z.testbit (u8 (m (data_ + 0x09))) 2);
               ("Board is replaceable"%string,
                Z.testbit (u8 (m (data_ + 0x09))) 3);
               ("Board is hot swappable"%string,
                Z.testbit (u8 (m (data_ + 0x09))) 4) ]).
Proof.
  unfold value_of, BaseboardTable.GetFeatures, Table.GetByte. rd_simpl.
  destruct (u8 (m (data_ + 1)) <? 10); [reflexivity|]. rd_simpl.
  destruct (Z.land (u8 (m (data_ + 9))) 31 =? 0); [reflexivity|].
  cbn [orb]. rewrite emplace_flags_map by lia. reflexivity.
Qed.

(** C9, as it stands, fails.  On a region of one byte in a buffer that
    holds no more, the count walk loads the declared length at offset 1,
    outside the buffer, before it has counted anything; and on a region of
    [2 ^ 32 - 1] zeroes the count reaches [2 ^ 31], which is no [int]:
    wrapped, it is negative. *)
Lemma GetTableCount_leaves_buffer :
  run_in 1 (GetTableCount 1) (place [0] Examples.outside) = Some (OutOfBuffer 1)
  /\ value_of (GetTableCount (2 ^ 32 - 1)) (fun _ => 0) = Some (2 ^ 31)
  /\ to_int (2 ^ 31) = - 2 ^ 31.
Proof.
  split; [vm_compute; reflexivity|].
  split; [exact count_of_zeroes | vm_compute; reflexivity].
Qed.

(** C9, amended.  When the header announces a region of 1 to [2 ^ 32 - 2]
    bytes, [GetTableCount] returns 1 or more, and an [int], whatever the
    bytes are, unless it loads a byte behind the buffer; it loads none when
    the buffer holds 256 bytes or more past the region.  So for a region of
    less than [2 ^ 32 - 1] bytes [Create] fails with "SMBios tables not
    found" exactly when the announced length is 0. *)
Theorem GetTableCount_nonempty_region (d : SMBiosData) (data_size size : Z) (m : mem) :
  0 <= length d < 2 ^ 32 - 1 ->
  data_size <> 0 ->
  (0 < length d ->
   (exists n, run_in size (GetTableCount (length d)) m = Some (Returns n)
              /\ 1 <= n < 2 ^ 31)
   \/ (exists a, run_in size (GetTableCount (length d)) m = Some (OutOfBuffer a)
                 /\ size <= a))
  /\ (length d + 256 <= size ->
      exists n, run_in size (GetTableCount (length d)) m = Some (Returns n))
  /\ (run_in size (Create (Some d) data_size) m = Some (Returns NoStructures)
      <-> length d = 0).
Proof.
  intros Hl Hs. split; [|split].
  - intros Hpos.
    destruct (GetTableCount_run (length d) size m Hl)
      as [[n [R [Hn [_ [H1 _]]]]]|[a [R Ha]]].
    + left. exists n. split; [exact R | lia].
    + right. exists a. split; [exact R | lia].
  - intros Hsize.
    destruct (GetTableCount_run (length d) size m Hl) as [[n [R _]]|[a [_ Ha]]].
    + exists n. exact R.
    + lia.
  - destruct (GetTableCount_total (length d) m []) as [n [tr [E [H1 H0]]]].
    pose proof (Create_eq d data_size m n tr Hs E) as EC.
    unfold run_in. rewrite EC. split.
    + intros R. destruct (first_outside size tr); [discriminate|].
      destruct (Z.eqb_spec n 0) as [N|N]; [lia | discriminate].
    + intros L. assert (N : n = 0) by lia. subst n.
      unfold GetTableCount in E. rewrite L in E. cbn in E. injection E as <-.
      reflexivity.
Qed.

Lemma GetTableCount_nonempty_region_witness :
  (0 < 17 ->
   (exists n, run_in 273 (GetTableCount 17) Examples.blob_mem = Some (Returns n)
              /\ 1 <= n < 2 ^ 31)
   \/ (exists a, run_in 273 (GetTableCount 17) Examples.blob_mem = Some (OutOfBuffer a)
                 /\ 273 <= a))
  /\ (17 + 256 <= 273 ->
      exists n, run_in 273 (GetTableCount 17) Examples.blob_mem = Some (Returns n))
  /\ (run_in 273 (Create (Some (data_ Examples.blob_smbios)) 25) Examples.blob_mem
      = Some (Returns NoStructures) <-> 17 = 0).
Proof.
  apply (GetTableCount_nonempty_region (data_ Examples.blob_smbios) 25 273
           Examples.blob_mem); cbn [length data_ Examples.blob_smbios]; lia.
Defined.


(** * Further properties of smbios.cc *)

(** ** The count walk and the locate walk side by side *)

Lemma count_loop_ge fuel : forall end_ pos count m tr n tr',
  count_loop fuel end_ pos count m tr = Some (n, tr') ->
  count <= n /\ (pos < end_ -> count + 1 <= n).
Proof.
  induction fuel as [|fuel IH]; intros end_ pos count m tr n tr' E; [discriminate|].
  rewrite count_loop_S in E. destruct (Z.ltb_spec pos end_) as [L|L].
  - destruct (strings_end _ _ _ _ _) as [[p tr1]|]; [|discriminate].
    apply IH in E. lia.
  - injection E as <- _. lia.
Qed.

Lemma next_handle_value fuel : forall length next m tr tr',
  option_map fst (next_handle fuel length next m tr)
  = option_map fst (next_handle fuel length next m tr').
Proof.
  induction fuel as [|fuel IH]; intros length next m tr tr'; [reflexivity|].
  rewrite !next_handle_S.
  destruct (next - 0 + 1 <? length); [|reflexivity].
  destruct (negb (u8 (m next) =? 0)); [apply IH|].
  destruct (negb (u8 (m (next + 1)) =? 0)); [apply IH | reflexivity].
Qed.

(** From the same start, the scan of [GetTable] stops where the scan of
    [GetTableCount] stops, unless it is stopped by the end of the region. *)
Lemma scans_agree fuel2 : forall fuel1 length q m tr1 tr2 p tr1' next tr2',
  strings_end fuel1 length q m tr1 = Some (p, tr1') ->
  next_handle fuel2 length q m tr2 = Some (next, tr2') ->
  next = p \/ length <= next + 1.
Proof.
  induction fuel2 as [|fuel2 IH];
    intros fuel1 length q m tr1 tr2 p tr1' next tr2' E1 E2; [discriminate|].
  destruct fuel1 as [|fuel1]; [discriminate|].
  rewrite strings_end_S in E1. rewrite next_handle_S in E2.
  destruct (Z.ltb_spec (q - 0 + 1) length) as [L|L].
  - replace (q <? length) with true in E1 by lia. rewrite andb_true_r in E1.
    destruct (Z.eqb_spec (u8 (m q)) 0) as [B0|B0]; cbn [negb andb] in E1, E2.
    + destruct (Z.eqb_spec (u8 (m (q + 1))) 0) as [B1|B1]; cbn [negb] in E1, E2.
      * injection E1 as <- _. injection E2 as <- _. left. reflexivity.
      * exact (IH _ _ _ _ _ _ _ _ _ _ E1 E2).
    + exact (IH _ _ _ _ _ _ _ _ _ _ E1 E2).
  - injection E2 as <- _. right. lia.
Qed.

(** In step with a count walk that ends with [n], the locate walk gives the
    same exit under every count bound from [n] on. *)
Lemma table_loop_count_free fuel1 :
  forall fuel2 fuelc length tc1 tc2 type pos index m tr1 tr2 trc n trc',
  count_loop fuelc length pos index m trc = Some (n, trc') ->
  n <= tc1 -> n <= tc2 -> 0 <= pos ->
  (Z.to_nat (tc1 - index) < fuel1)%nat -> (Z.to_nat (tc2 - index) < fuel2)%nat ->
  option_map fst (table_loop fuel1 length tc1 type pos index m tr1)
  = option_map fst (table_loop fuel2 length tc2 type pos index m tr2).
Proof.
  induction fuel1 as [|fuel1 IH];
    intros fuel2 fuelc length tc1 tc2 type pos idx m tr1 tr2 trc n trc'
           Ec H1 H2 H0 Hf1 Hf2; [lia|].
  destruct fuel2 as [|fuel2]; [lia|].
  destruct fuelc as [|fuelc]; [discriminate|].
  rewrite !table_loop_S. rewrite count_loop_S in Ec.
  destruct (Z.leb_spec (pos + 4) length) as [L|L].
  - replace (pos <? length) with true in Ec by lia.
    destruct (strings_end _ _ _ _ _) as [[p trs]|] eqn:Es; [|discriminate].
    destruct (count_loop_ge _ _ _ _ _ _ _ _ Ec) as [Hn _].
    replace (idx <? tc1) with true by lia. replace (idx <? tc2) with true by lia.
    cbn [andb].
    destruct (u8 (m (pos + 1)) <? 4); [reflexivity|].
    destruct (u8 (m pos) =? type); [reflexivity|].
    destruct (u8 (m pos) =? TABLE_TYPE_END_OF_TABLE); [reflexivity|].
    pose proof (u8_range (m (pos + 1))) as Hb.
    pose proof (next_handle_value (S (Z.to_nat (length - (pos + u8 (m (pos + 1))))))
                  length (pos + u8 (m (pos + 1))) m
                  ((pos + 1) :: pos :: tr1) ((pos + 1) :: pos :: tr2)) as Hv.
    destruct (next_handle _ _ _ _ ((pos + 1) :: pos :: tr1)) as [[next t1]|] eqn:En1;
      destruct (next_handle _ _ _ _ ((pos + 1) :: pos :: tr2)) as [[next2 t2]|] eqn:En2;
      cbn in Hv; try discriminate; [|reflexivity].
    injection Hv as <-.
    destruct (next_handle_safe (S (Z.to_nat (length - (pos + u8 (m (pos + 1))))))
                length (pos + u8 (m (pos + 1))) m ((pos + 1) :: pos :: tr1))
      as [v [t [Ev [Hge _]]]]; [lia|lia|].
    rewrite En1 in Ev. injection Ev as <- _.
    destruct (scans_agree _ _ _ _ _ _ _ _ _ _ _ Es En1) as [->|Hend].
    + apply (IH _ _ _ _ _ _ _ _ _ _ _ _ _ _ Ec); lia.
    + destruct fuel1 as [|fuel1]; [lia|]. destruct fuel2 as [|fuel2]; [lia|].
      rewrite !table_loop_S.
      replace (next + 2 + 4 <=? length) with false by lia.
      rewrite !andb_false_r. reflexivity.
  - replace (pos + 4 <=? length) with false by lia. rewrite !andb_false_r. reflexivity.
Qed.

Lemma value_of_fst {A} (c : Rd A) m : value_of c m = option_map fst (c m []).
Proof. unfold value_of. destruct (c m []) as [[a tr]|]; reflexivity. Qed.

Lemma Create_Created d data_size m s :
  value_of (Create (Some d) data_size) m = Some (Created s) ->
  data_size <> 0
  /\ s = {| data_ := d; data_size_ := data_size; table_count_ := table_count_ s |}
  /\ table_count_ s <> 0
  /\ exists tr, GetTableCount (length d) m [] = Some (table_count_ s, tr).
Proof.
  unfold value_of, Create. destruct (Z.eqb_spec data_size 0) as [Z0|Z0]; [discriminate|].
  rd_simpl. destruct (GetTableCount (length d) m []) as [[n tr]|] eqn:E; [|discriminate].
  destruct (Z.eqb_spec n 0) as [N|N]; [discriminate|].
  intros [= <-]. cbn. repeat split; try assumption. exists tr. reflexivity.
Qed.

(** X1.  On a region of less than [2 ^ 32 - 1] bytes, [GetTableCount]
    either returns a count n with [2 * n <= length + 1], one structure for
    every two bytes at most and so an [int] without overflow, or loads a
    byte behind the buffer, and then less than 256 bytes past the end of the
    region. *)
Theorem GetTableCount_two_bytes_each (length size : Z) (m : mem) :
  0 <= length < 2 ^ 32 - 1 ->
  (exists n,
      run_in size (GetTableCount length) m = Some (Returns n)
      /\ 0 <= n < 2 ^ 31 /\ 2 * n <= length + 1)
  \/ (exists a,
         run_in size (GetTableCount length) m = Some (OutOfBuffer a)
         /\ size <= a < length + 256).
Proof.
  intros Hl.
  destruct (GetTableCount_run length size m Hl) as [[n [R [Hn [B _]]]]|[a [R Ha]]].
  - left. exists n. split; [exact R | lia].
  - right. exists a. split; [exact R | exact Ha].
Qed.

Lemma GetTableCount_two_bytes_each_witness :
  (exists n,
      run_in 17 (GetTableCount 17) Examples.blob_mem = Some (Returns n)
      /\ 0 <= n < 2 ^ 31 /\ 2 * n <= 17 + 1)
  \/ (exists a,
         run_in 17 (GetTableCount 17) Examples.blob_mem = Some (OutOfBuffer a)
         /\ 17 <= a < 17 + 256).
Proof.
  apply (GetTableCount_two_bytes_each 17 17 Examples.blob_mem). lia.
Defined.

(** X2.  On a region of less than [2 ^ 32 - 1] bytes, where the count is
    an [int], the count that [Create] stores never cuts a lookup short: on
    the same memory, [GetTable] stops where it stops under every larger
    [table_count_] an [int] holds, so what it returns depends on the blob and
    on the type only. *)
Theorem GetTable_count_never_binds (d : SMBiosData) (data_size : Z) (m : mem)
        (s : SMBios) (type table_count' : Z) :
  0 <= length d < 2 ^ 32 - 1 ->
  value_of (Create (Some d) data_size) m = Some (Created s) ->
  table_count_ s <= table_count' < 2 ^ 31 ->
  value_of (GetTable_walk {| data_ := data_ s; data_size_ := data_size_ s;
                             table_count_ := table_count' |} type) m
  = value_of (GetTable_walk s type) m.
Proof.
  intros _ Hc Htc. destruct (Create_Created d data_size m s Hc) as [_ [Es [_ [tr E]]]].
  rewrite !value_of_fst. unfold GetTable_walk. cbn [data_ table_count_].
  unfold GetTableCount in E. rewrite Es. cbn [data_ table_count_].
  apply (table_loop_count_free _ _ _ _ _ _ _ _ _ _ _ _ _ _ _ E); lia.
Qed.

Lemma GetTable_count_never_binds_witness :
  value_of (GetTable_walk {| data_ := data_ Examples.truncated_smbios;
                             data_size_ := data_size_ Examples.truncated_smbios;
                             table_count_ := 100 |} 1) Examples.truncated_mem
  = value_of (GetTable_walk Examples.truncated_smbios 1) Examples.truncated_mem.
Proof.
  apply (GetTable_count_never_binds (data_ Examples.truncated_smbios) 15
           Examples.truncated_mem Examples.truncated_smbios 1 100).
  - cbn [length data_ Examples.truncated_smbios]. lia.
  - reflexivity.
  - cbn [table_count_ Examples.truncated_smbios]. lia.
Defined.

(** ** The warnings of a lookup on wellformed structures *)

Lemma table_loop_blob_exit m length table_count type ss : forall fuel p table_index tr,
  forallb wf_structure ss = true -> holds m p (encode_all ss) ->
  length = p + Z.of_nat (List.length (encode_all ss)) ->
  table_index + Z.of_nat (List.length ss) <= table_count ->
  (List.length ss < fuel)%nat ->
  exists tr',
    table_loop fuel length table_count type p table_index m tr
    = Some (walk_stop ss p table_index type, tr').
Proof.
  induction ss as [|s ss IH]; intros fuel p idx tr Hwf Hm He Hi Hf;
    (destruct fuel as [|fuel]; [simpl in Hf; lia|]).
  - rewrite table_loop_S. cbn [encode_all flat_map List.length] in He.
    replace (p + 4 <=? length) with false by lia. rewrite andb_false_r.
    eexists. reflexivity.
  - cbn [forallb] in Hwf. apply andb_true_iff in Hwf. destruct Hwf as [Hs Hss].
    rewrite encode_all_cons in Hm. apply holds_app in Hm. destruct Hm as [Hm1 Hm2].
    rewrite encode_all_length_cons in He. fold (size s) in Hm2.
    pose proof (size_min s) as Hmin.
    destruct (wf_structure_parts s Hs) as [Hty [Hl _]].
    destruct (holds_encode m p s Hm1) as [H0 [H1 _]].
    cbn [List.length] in Hi, Hf. cbn [walk_stop].
    destruct (Z.eqb_spec (s_type s) type) as [T|T].
    { rewrite table_loop_S, H0, H1, (u8_id (s_type s)), (u8_id (declared_length s)) by lia.
      replace ((idx <? table_count) && (p + 4 <=? length)) with true
        by (symmetry; apply andb_true_iff; split; [apply Z.ltb_lt | apply Z.leb_le]; lia).
      replace (declared_length s <? 4) with false by lia.
      replace (s_type s =? type) with true by lia.
      eexists. reflexivity. }
    destruct (Z.eqb_spec (s_type s) 127) as [M|M].
    { rewrite table_loop_S, H0, H1, (u8_id (s_type s)), (u8_id (declared_length s)) by lia.
      replace ((idx <? table_count) && (p + 4 <=? length)) with true
        by (symmetry; apply andb_true_iff; split; [apply Z.ltb_lt | apply Z.leb_le]; lia).
      replace (declared_length s <? 4) with false by lia.
      replace (s_type s =? type) with false by lia.
      replace (s_type s =? TABLE_TYPE_END_OF_TABLE) with true
        by (unfold TABLE_TYPE_END_OF_TABLE; lia).
      eexists. reflexivity. }
    destruct (table_loop_structure m length table_count type s fuel p idx tr Hs Hm1)
      as [tr1 [E1 _]]; [lia|lia|exact T|exact M|].
    destruct (IH fuel (p + size s) (idx + 1) tr1 Hss Hm2) as [tr2 E2]; [lia|lia|lia|].
    exists tr2. rewrite E1. exact E2.
Qed.


Lemma walk_stop_marker_last pre e : forall off index type,
  forallb (fun x => negb (s_type x =? type) && negb (s_type x =? 127)) pre = true ->
  s_type e = 127 -> type <> 127 ->
  walk_stop (pre ++ [e]) off index type
  = {| found := None;
       exit_pos := off + Z.of_nat (List.length (encode_all pre));
       exit_index := index + Z.of_nat (List.length pre);
       invalid_length := false |}.
Proof.
  induction pre as [|x pre IH]; intros off idx type Hpre He Ht.
  - cbn. replace (s_type e =? type) with false by lia.
    replace (s_type e =? 127) with true by lia. f_equal; lia.
  - cbn [forallb] in Hpre. apply andb_true_iff in Hpre. destruct Hpre as [Hx Hpre].
    cbn [app walk_stop].
    replace (s_type x =? type) with false by lia.
    replace (s_type x =? 127) with false by lia.
    rewrite IH by assumption. rewrite encode_all_length_cons. cbn [List.length].
    f_equal; lia.
Qed.

Lemma Create_blob ss m major minor data_size :
  forallb wf_structure ss = true -> ss <> [] -> data_size <> 0 ->
  holds m 0 (encode_all ss) ->
  value_of (Create (Some {| smbios_major_version := major;
                            smbios_minor_version := minor;
                            length := Z.of_nat (List.length (encode_all ss)) |})
                   data_size) m
  = Some (Created {| data_ := {| smbios_major_version := major;
                                 smbios_minor_version := minor;
                                 length := Z.of_nat (List.length (encode_all ss)) |};
                     data_size_ := data_size;
                     table_count_ := Z.of_nat (List.length ss) |}).
Proof.
  intros Hwf Hne Hs Hm. destruct (GetTableCount_blob m ss Hwf Hm) as [tr [E _]].
  unfold value_of, Create. replace (data_size =? 0) with false by lia.
  rd_simpl. cbn [length]. rewrite E.
  replace (Z.of_nat (List.length ss) =? 0) with false; [reflexivity|].
  symmetry. apply Z.eqb_neq. destruct ss as [|x ss']; [congruence|].
  cbn [List.length]. lia.
Qed.



(** X5.  On a wellformed blob whose only marker is its last structure, the
    lookup of a type that no structure has stops on the marker and logs one
    warning, the size warning, with the offset of the marker as the size
    processed; the count it processed agrees with the count stored. *)
Theorem GetTable_stops_on_marker (pre : list structure) (e : structure) (m : mem)
        (major minor data_size type : Z) :
  forallb wf_structure (pre ++ [e]) = true ->
  forallb (fun x => negb (s_type x =? type) && negb (s_type x =? 127)) pre = true ->
  s_type e = 127 ->
  type <> 127 ->
  data_size <> 0 ->
  holds m 0 (encode_all (pre ++ [e])) ->
  exists s x,
    value_of (Create (Some {| smbios_major_version := major;
                              smbios_minor_version := minor;
                              length := Z.of_nat (List.length (encode_all (pre ++ [e]))) |})
                     data_size) m = Some (Created s)
    /\ value_of (GetTable_walk s type) m = Some x
    /\ found x = None
    /\ exit_pos x = Z.of_nat (List.length (encode_all pre))
    /\ exit_index x + 1 = table_count_ s
    /\ GetTable_warnings s x
       = [SizeMismatch (Z.of_nat (List.length (encode_all pre)))
                       (Z.of_nat (List.length (encode_all (pre ++ [e]))))].
Proof.
  intros Hwf Hpre He Ht Hs Hm. eexists. eexists.
  split; [apply Create_blob; try assumption; destruct pre; discriminate|].
  assert (Hsz : Z.of_nat (List.length (encode_all pre))
                < Z.of_nat (List.length (encode_all (pre ++ [e])))).
  { rewrite encode_all_app, List.length_app. cbn [encode_all flat_map].
    rewrite app_nil_r. unfold encode. cbn [List.length]. lia. }
  split.
  - unfold GetTable_walk. cbn [data_ length table_count_].
    destruct (table_loop_blob_exit m (Z.of_nat (List.length (encode_all (pre ++ [e]))))
                (Z.of_nat (List.length (pre ++ [e]))) type (pre ++ [e])
                (S (Z.to_nat (Z.of_nat (List.length (pre ++ [e]))))) 0 0 [] Hwf Hm)
      as [tr E]; [lia|lia|lia|].
    rewrite (walk_stop_marker_last pre e 0 0 type Hpre He Ht) in E.
    exact (value_of_Some _ _ _ _ E).
  - cbn [found exit_pos exit_index table_count_]. split; [reflexivity|].
    split; [lia|]. split; [rewrite List.length_app; cbn [List.length]; lia|].
    unfold GetTable_warnings, count_mismatch, size_mismatch.
    cbn [found exit_pos exit_index invalid_length data_ length table_count_ app].
    rewrite Z.add_0_l.
    replace (Z.of_nat (List.length pre) + 1 =? Z.of_nat (List.length (pre ++ [e])))
      with true
      by (symmetry; apply Z.eqb_eq; rewrite List.length_app, Nat2Z.inj_add; reflexivity).
    replace (0 + Z.of_nat (List.length (encode_all pre))
             =? Z.of_nat (List.length (encode_all (pre ++ [e])))) with false by lia.
    cbn [negb app]. reflexivity.
Qed.

Lemma GetTable_stops_on_marker_witness :
  exists s x,
    value_of (Create (Some {| smbios_major_version := 2;
                              smbios_minor_version := 6;
                              length := Z.of_nat (List.length
                                          (encode_all ([Examples.bios]
                                                       ++ [Examples.end_of_table]))) |})
                     25) Examples.blob_mem = Some (Created s)
    /\ value_of (GetTable_walk s 1) Examples.blob_mem = Some x
    /\ found x = None
    /\ exit_pos x = Z.of_nat (List.length (encode_all [Examples.bios]))
    /\ exit_index x + 1 = table_count_ s
    /\ GetTable_warnings s x
       = [SizeMismatch (Z.of_nat (List.length (encode_all [Examples.bios])))
                       (Z.of_nat (List.length (encode_all ([Examples.bios]
                                                           ++ [Examples.end_of_table]))))].
Proof.
  apply (GetTable_stops_on_marker [Examples.bios] Examples.end_of_table
           Examples.blob_mem 2 6 25 1).
  - reflexivity.
  - reflexivity.
  - reflexivity.
  - discriminate.
  - lia.
  - apply holdsb_true. reflexivity.
Defined.

(** ** String references of a wellformed structure *)

Lemma holds_nth m off bs j :
  holds m off bs -> (j < List.length bs)%nat -> m (off + Z.of_nat j) = nth j bs 0.
Proof. intros H Hj. apply H. exact Hj. Qed.

Lemma forallb_is_byte_nth bs j :
  forallb is_byte bs = true -> 0 <= nth j bs 0 < 256.
Proof.
  intros H. destruct (Nat.lt_ge_cases j (List.length bs)) as [L|L].
  - rewrite forallb_forall in H. apply is_byte_true, H, nth_In, L.
  - rewrite nth_overflow by exact L. lia.
Qed.

Lemma encode_is_byte s : wf_structure s = true -> forallb is_byte (encode s) = true.
Proof.
  intros Hwf. destruct (wf_structure_parts s Hwf) as [Ht [Hl Hs]].
  unfold wf_structure in Hwf. rewrite !andb_true_iff in Hwf.
  destruct Hwf as [[[[[_ H0] H1] Ha] _] _].
  unfold encode. cbn [forallb]. rewrite forallb_app, Ha, H0, H1.
  rewrite (string_list_is_byte _ Hs).
  replace (is_byte (s_type s)) with true by (symmetry; apply is_byte_true; lia).
  replace (is_byte (declared_length s)) with true by (symmetry; apply is_byte_true; lia).
  reflexivity.
Qed.

(** The byte at an offset of the formatted area. *)
Lemma holds_encode_area m p s offset :
  wf_structure s = true -> holds m p (encode s) ->
  4 <= offset < declared_length s ->
  u8 (m (p + offset)) = nth (Z.to_nat (offset - 4)) (s_area s) 0.
Proof.
  intros Hwf Hm Ho. unfold declared_length in Ho.
  unfold wf_structure in Hwf. rewrite !andb_true_iff in Hwf.
  destruct Hwf as [[[[[_ _] _] Ha] _] _].
  unfold encode in Hm. rewrite !holds_cons, holds_app in Hm.
  destruct Hm as [_ [_ [_ [_ [Hm _]]]]].
  pose proof (holds_nth m _ _ (Z.to_nat (offset - 4)) Hm ltac:(lia)) as E.
  replace (p + 1 + 1 + 1 + 1 + Z.of_nat (Z.to_nat (offset - 4))) with (p + offset) in E by lia.
  rewrite E. apply u8_id, forallb_is_byte_nth, Ha.
Qed.

(** [GetString] on a wellformed structure, at an offset below the declared
    length: the string the byte there asks for, and reads of bytes of the
    structure only. *)
Lemma GetString_structure st m p offset fuel :
  wf_structure st = true -> holds m p (encode st) ->
  0 <= offset < declared_length st ->
  (List.length (encode st) < fuel)%nat ->
  exists tr,
    Table.GetString fuel p offset m [] =
      Some (if u8 (m (p + offset)) =? 0 then []
            else nth (Z.to_nat (u8 (m (p + offset)) - 1)) (s_strings st) [], tr)
    /\ reads_within p (p + size st) tr.
Proof.
  intros Hwf Hm Ho Hf.
  destruct (wf_structure_parts st Hwf) as [_ [Hl Hs]].
  destruct (holds_encode m p st Hm) as [_ [H1 Hsl]].
  destruct (string_list_prefix (s_strings st)) as [X EX].
  pose proof (size_eq st) as Hsz. rewrite EX in Hsz, Hsl.
  rewrite List.length_app in Hsz. cbn [List.length] in Hsz.
  assert (Hu : u8 (m (p + 1)) = declared_length st) by (rewrite H1; apply u8_id; lia).
  rewrite <- Hu in Hsl.
  destruct (GetString_strings m fuel p offset (s_strings st) X Hs Hsl) as [tr [E F]].
  { unfold size in Hsz. lia. }
  exists tr. split; [exact E|].
  eapply Forall_impl; [|exact F]. cbv beta. rewrite Hu. intros a Ha. lia.
Qed.

Lemma GetString_referred st m p offset fuel :
  wf_structure st = true -> holds m p (encode st) ->
  4 <= offset < declared_length st ->
  (List.length (encode st) < fuel)%nat ->
  exists tr,
    Table.GetString fuel p offset m [] = Some (referred_string st offset, tr)
    /\ reads_within p (p + size st) tr.
Proof.
  intros Hwf Hm Ho Hf.
  destruct (GetString_structure st m p offset fuel Hwf Hm ltac:(lia) Hf) as [tr [E W]].
  exists tr. split; [|exact W].
  rewrite E, (holds_encode_area m p st offset Hwf Hm Ho). reflexivity.
Qed.

(** X6.  Round trip of a string reference: on a wellformed structure,
    [GetString] at an offset of the formatted area returns the string whose
    1-based index is stored there, and the empty text for the index 0 and for
    an index past the last string. *)
Theorem GetString_round_trip (st : structure) (m : mem) (p offset : Z) (fuel : nat) :
  wf_structure st = true ->
  holds m p (encode st) ->
  4 <= offset < declared_length st ->
  (List.length (encode st) < fuel)%nat ->
  value_of (Table.GetString fuel p offset) m = Some (referred_string st offset).
Proof.
  intros Hwf Hm Ho Hf.
  destruct (GetString_referred st m p offset fuel Hwf Hm Ho Hf) as [tr [E _]].
  exact (value_of_Some _ _ _ _ E).
Qed.

Lemma GetString_round_trip_witness :
  value_of (Table.GetString 40 0 7) Examples.baseboard_mem = Some [83].
Proof.
  apply (GetString_round_trip Examples.baseboard Examples.baseboard_mem 0 7 40).
  - reflexivity.
  - apply holdsb_true. reflexivity.
  - vm_compute. split; [discriminate | reflexivity].
  - vm_compute. lia.
Defined.

Lemma c_str_chars_nonzero fuel : forall s m tr v tr',
  Table.c_str fuel s m tr = Some (v, tr') -> Forall (fun c => 1 <= c < 256) v.
Proof.
  induction fuel as [|fuel IH]; intros s m tr v tr' E; [discriminate|].
  rewrite c_str_S in E. destruct (Z.eqb_spec (u8 (m s)) 0) as [Z0|Z0].
  - injection E as <- _. constructor.
  - destruct (Table.c_str fuel (s + 1) m (s :: tr)) as [[rest t]|] eqn:Er; [|discriminate].
    injection E as <- _. constructor; [|exact (IH _ _ _ _ _ Er)].
    pose proof (u8_range (m s)). lia.
Qed.

(** X7.  Whatever the memory holds, a text [GetString] returns has no 0 in
    it: each of its bytes is between 1 and 255. *)
Theorem GetString_no_zero (fuel : nat) (data_ offset : Z) (m : mem) (v : list Z) :
  value_of (Table.GetString fuel data_ offset) m = Some v ->
  Forall (fun c => 1 <= c < 256) v.
Proof.
  unfold value_of. rewrite GetString_eq.
  destruct (u8 (m (data_ + offset)) =? 0); [intros [= <-]; constructor|].
  destruct (Table.skip_strings _ _ _ _ _ _) as [[string tr]|]; [|discriminate].
  destruct (u8 (m string) =? 0); [intros [= <-]; constructor|].
  destruct (u8 (m (string + 0)) =? 0); [intros [= <-]; constructor|].
  destruct (Table.c_str fuel string m _) as [[w t]|] eqn:E; [|discriminate].
  intros [= <-]. exact (c_str_chars_nonzero _ _ _ _ _ _ E).
Qed.

Lemma GetString_no_zero_witness :
  Forall (fun c => 1 <= c < 256) [65; 66].
Proof.
  apply (GetString_no_zero 8 0 4 Examples.truncated_mem [65; 66]). reflexivity.
Defined.

(** ** Reads are only added *)

Lemma framed_ret {A} (a : A) : framed (ret a).
Proof. intros m tr. reflexivity. Qed.

Lemma framed_load8 a : framed (load8 a).
Proof. intros m tr. reflexivity. Qed.

Lemma framed_bind {A B} (c : Rd A) (k : A -> Rd B) :
  framed c -> (forall a, framed (k a)) -> framed (bind c k).
Proof.
  intros Hc Hk m tr. unfold bind. rewrite (Hc m tr).
  destruct (c m []) as [[a t]|]; [|reflexivity].
  rewrite (Hk a m (t ++ tr)), (Hk a m t).
  destruct (k a m []) as [[b u]|]; [|reflexivity].
  rewrite app_assoc. reflexivity.
Qed.

Lemma framed_if {A} (b : bool) (c1 c2 : Rd A) :
  framed c1 -> framed c2 -> framed (if b then c1 else c2).
Proof. destruct b; auto. Qed.

Lemma framed_strlen fuel : forall s, framed (Table.strlen fuel s).
Proof.
  induction fuel as [|fuel IH]; intros s; [intros m tr; reflexivity|].
  cbn [Table.strlen]. apply framed_bind; [apply framed_load8|]. intros c.
  apply framed_if; [apply framed_ret|].
  apply framed_bind; [apply IH | intros n; apply framed_ret].
Qed.

Lemma framed_c_str fuel : forall s, framed (Table.c_str fuel s).
Proof.
  induction fuel as [|fuel IH]; intros s; [intros m tr; reflexivity|].
  cbn [Table.c_str]. apply framed_bind; [apply framed_load8|]. intros c.
  apply framed_if; [apply framed_ret|].
  apply framed_bind; [apply IH | intros n; apply framed_ret].
Qed.

Lemma framed_skip_strings fuel turns : forall string handle,
  framed (Table.skip_strings fuel turns string handle).
Proof.
  induction turns as [|turns IH]; intros string handle; [intros m tr; reflexivity|].
  cbn [Table.skip_strings]. apply framed_if; [|apply framed_ret].
  apply framed_bind; [apply framed_load8|]. intros c.
  apply framed_if; [|apply framed_ret].
  apply framed_bind; [apply framed_strlen | intros n; apply IH].
Qed.

Lemma framed_GetString fuel data_ offset : framed (Table.GetString fuel data_ offset).
Proof.
  unfold Table.GetString, Table.GetByte.
  apply framed_bind; [apply framed_load8|]. intros handle.
  apply framed_if; [apply framed_ret|].
  apply framed_bind; [apply framed_load8|]. intros len.
  apply framed_bind; [apply framed_skip_strings|]. intros string.
  apply framed_bind; [apply framed_load8|]. intros c.
  apply framed_if; [apply framed_ret|].
  apply framed_bind; [apply framed_load8|]. intros c0.
  apply framed_if; [apply framed_ret | apply framed_c_str].
Qed.

(** A string reference behind a test of the declared length, on a wellformed
    structure. *)
Lemma gated_GetString st m p gate offset fuel :
  wf_structure st = true -> holds m p (encode st) ->
  4 <= offset < gate ->
  (List.length (encode st) < fuel)%nat ->
  exists tr,
    (table_length <- Table.GetByte p 0x01 ;;
     if table_length <? gate then ret [] else Table.GetString fuel p offset) m []
    = Some (if declared_length st <? gate then [] else referred_string st offset, tr)
    /\ reads_within p (p + size st) tr.
Proof.
  intros Hwf Hm Ho Hf.
  destruct (wf_structure_parts st Hwf) as [_ [Hl _]].
  destruct (holds_encode m p st Hm) as [_ [H1 _]].
  pose proof (size_min st) as Hmin.
  unfold Table.GetByte. rd_simpl. rewrite H1, (u8_id (declared_length st)) by lia.
  destruct (Z.ltb_spec (declared_length st) gate) as [G|G].
  - eexists. split; [reflexivity|]. constructor; [lia | constructor].
  - destruct (GetString_referred st m p offset fuel Hwf Hm ltac:(lia) Hf) as [tr [E W]].
    rewrite (framed_GetString fuel p offset m [p + 1]), E.
    eexists. split; [reflexivity|].
    apply Forall_app. split; [exact W|]. constructor; [lia | constructor].
Qed.

(** X8.  On a wellformed structure, the accessors that test the declared
    length before they follow a string reference ([GetAssetTag],
    [GetLocationInChassis], [GetSKUNumber], [GetFamily]) return the empty
    text below their threshold and the referred string from it on, and read
    bytes of the structure only. *)
Theorem gated_string_accessors (st : structure) (m : mem) (p : Z) (fuel : nat) :
  wf_structure st = true ->
  holds m p (encode st) ->
  (List.length (encode st) < fuel)%nat ->
  (exists tr,
      BaseboardTable.GetAssetTag fuel p m []
      = Some (if declared_length st <? 0x09 then [] else referred_string st 0x08, tr)
      /\ reads_within p (p + size st) tr)
  /\ (exists tr,
         BaseboardTable.GetLocationInChassis fuel p m []
         = Some (if declared_length st <? 0x0E then [] else referred_string st 0x0A, tr)
         /\ reads_within p (p + size st) tr)
  /\ (exists tr,
         SystemTable.GetSKUNumber fuel p m []
         = Some (if declared_length st <? 0x1B then [] else referred_string st 0x19, tr)
         /\ reads_within p (p + size st) tr)
  /\ (exists tr,
         SystemTable.GetFamily fuel p m []
         = Some (if declared_length st <? 0x1B then [] else referred_string st 0x1A, tr)
         /\ reads_within p (p + size st) tr).
Proof.
  intros Hwf Hm Hf. repeat split.
  - apply (gated_GetString st m p 0x09 0x08 fuel Hwf Hm); [lia | exact Hf].
  - apply (gated_GetString st m p 0x0E 0x0A fuel Hwf Hm); [lia | exact Hf].
  - apply (gated_GetString st m p 0x1B 0x19 fuel Hwf Hm); [lia | exact Hf].
  - apply (gated_GetString st m p 0x1B 0x1A fuel Hwf Hm); [lia | exact Hf].
Qed.

Lemma gated_string_accessors_witness :
  (exists tr,
      BaseboardTable.GetAssetTag 40 0 Examples.baseboard_mem []
      = Some (if declared_length Examples.baseboard <? 0x09 then []
              else referred_string Examples.baseboard 0x08, tr)
      /\ reads_within 0 (0 + size Examples.baseboard) tr)
  /\ (exists tr,
         BaseboardTable.GetLocationInChassis 40 0 Examples.baseboard_mem []
         = Some (if declared_length Examples.baseboard <? 0x0E then []
                 else referred_string Examples.baseboard 0x0A, tr)
         /\ reads_within 0 (0 + size Examples.baseboard) tr)
  /\ (exists tr,
         SystemTable.GetSKUNumber 40 0 Examples.baseboard_mem []
         = Some (if declared_length Examples.baseboard <? 0x1B then []
                 else referred_string Examples.baseboard 0x19, tr)
         /\ reads_within 0 (0 + size Examples.baseboard) tr)
  /\ (exists tr,
         SystemTable.GetFamily 40 0 Examples.baseboard_mem []
         = Some (if declared_length Examples.baseboard <? 0x1B then []
                 else referred_string Examples.baseboard 0x1A, tr)
         /\ reads_within 0 (0 + size Examples.baseboard) tr).
Proof.
  apply (gated_string_accessors Examples.baseboard Examples.baseboard_mem 0 40).
  - reflexivity.
  - apply holdsb_true. reflexivity.
  - vm_compute. lia.
Defined.

(** X9.  On a wellformed structure whose declared length covers the offsets
    0x04 to 0x08, the string accessors of the three views that follow a
    reference without a test return the referred strings: manufacturer at
    0x04, version or product name at 0x05, version at 0x06, serial number at
    0x07 and BIOS date at 0x08. *)
Theorem string_accessors (st : structure) (m : mem) (p : Z) (fuel : nat) :
  wf_structure st = true ->
  holds m p (encode st) ->
  0x08 < declared_length st ->
  (List.length (encode st) < fuel)%nat ->
  (value_of (BiosTable.GetManufacturer fuel p) m = Some (referred_string st 0x04)
   /\ value_of (SystemTable.GetManufacturer fuel p) m = Some (referred_string st 0x04)
   /\ value_of (BaseboardTable.GetManufacturer fuel p) m = Some (referred_string st 0x04))
  /\ (value_of (BiosTable.GetVersion fuel p) m = Some (referred_string st 0x05)
      /\ value_of (SystemTable.GetProductName fuel p) m = Some (referred_string st 0x05)
      /\ value_of (BaseboardTable.GetProductName fuel p) m
         = Some (referred_string st 0x05))
  /\ (value_of (SystemTable.GetVersion fuel p) m = Some (referred_string st 0x06)
      /\ value_of (BaseboardTable.GetVersion fuel p) m = Some (referred_string st 0x06))
  /\ (value_of (SystemTable.GetSerialNumber fuel p) m = Some (referred_string st 0x07)
      /\ value_of (BaseboardTable.GetSerialNumber fuel p) m
         = Some (referred_string st 0x07))
  /\ value_of (BiosTable.GetDate fuel p) m = Some (referred_string st 0x08).
Proof.
  intros Hwf Hm Hl Hf.
  assert (G : forall offset, 4 <= offset <= 8 ->
                value_of (Table.GetString fuel p offset) m
                = Some (referred_string st offset)).
  { intros offset Ho.
    destruct (GetString_referred st m p offset fuel Hwf Hm ltac:(lia) Hf) as [tr [E _]].
    exact (value_of_Some _ _ _ _ E). }
  repeat split; apply G; lia.
Qed.

Lemma string_accessors_witness :
  (value_of (BiosTable.GetManufacturer 40 0) Examples.baseboard_mem
   = Some (referred_string Examples.baseboard 0x04)
   /\ value_of (SystemTable.GetManufacturer 40 0) Examples.baseboard_mem
      = Some (referred_string Examples.baseboard 0x04)
   /\ value_of (BaseboardTable.GetManufacturer 40 0) Examples.baseboard_mem
      = Some (referred_string Examples.baseboard 0x04))
  /\ (value_of (BiosTable.GetVersion 40 0) Examples.baseboard_mem
      = Some (referred_string Examples.baseboard 0x05)
      /\ value_of (SystemTable.GetProductName 40 0) Examples.baseboard_mem
         = Some (referred_string Examples.baseboard 0x05)
      /\ value_of (BaseboardTable.GetProductName 40 0) Examples.baseboard_mem
         = Some (referred_string Examples.baseboard 0x05))
  /\ (value_of (SystemTable.GetVersion 40 0) Examples.baseboard_mem
      = Some (referred_string Examples.baseboard 0x06)
      /\ value_of (BaseboardTable.GetVersion 40 0) Examples.baseboard_mem
         = Some (referred_string Examples.baseboard 0x06))
  /\ (value_of (SystemTable.GetSerialNumber 40 0) Examples.baseboard_mem
      = Some (referred_string Examples.baseboard 0x07)
      /\ value_of (BaseboardTable.GetSerialNumber 40 0) Examples.baseboard_mem
         = Some (referred_string Examples.baseboard 0x07))
  /\ value_of (BiosTable.GetDate 40 0) Examples.baseboard_mem
     = Some (referred_string Examples.baseboard 0x08).
Proof.
  apply (string_accessors Examples.baseboard Examples.baseboard_mem 0 40).
  - reflexivity.
  - apply holdsb_true. reflexivity.
  - vm_compute. reflexivity.
  - vm_compute. lia.
Defined.

(** ** Codes and flags of the typed views *)

Lemma wakeup_default (b : Z) :
  b < 1 \/ 8 < b ->
  match b with
  | 0x01 => "Other"
  | 0x02 => "Unknown"
  | 0x03 => "APM Timer"
  | 0x04 => "Modem Ring"
  | 0x05 => "LAN Remote"
  | 0x06 => "Power Switch"
  | 0x07 => "PCI PME#"
  | 0x08 => "AC Power Restored"
  | _ => EmptyString
  end%string = EmptyString.
Proof.
  intros H. destruct b as [|q|q]; [reflexivity| |reflexivity].
  do 4 (try (destruct q as [q|q|]; try reflexivity; try lia)).
Qed.

(** X10.  [GetWakeupType] returns a text that is not empty exactly when the
    declared length is 0x19 or more and the byte at 0x18 is a code from 1 to
    8; the text is then the name of the code, and the byte at 0x18 is read
    only under such a declared length. *)
Theorem GetWakeupType_codes (m : mem) (data_ : Z) :
  exists text tr,
    SystemTable.GetWakeupType data_ m [] = Some (text, tr)
    /\ (text <> EmptyString <->
        0x19 <= u8 (m (data_ + 0x01)) /\ 1 <= u8 (m (data_ + 0x18)) <= 8)
    /\ (text <> EmptyString ->
        text = nth (Z.to_nat (u8 (m (data_ + 0x18)) - 1))
                   ["Other"; "Unknown"; "APM Timer"; "Modem Ring"; "LAN Remote";
                    "Power Switch"; "PCI PME#"; "AC Power Restored"]%string
                   EmptyString)
    /\ (In (data_ + 0x18) tr -> 0x19 <= u8 (m (data_ + 0x01))).
Proof.
  unfold SystemTable.GetWakeupType, Table.GetByte. rd_simpl.
  destruct (Z.ltb_spec (u8 (m (data_ + 1))) 25) as [L|L].
  - eexists _, _. split; [reflexivity|]. split; [|split].
    + split; [congruence | lia].
    + congruence.
    + intros [H|[]]. lia.
  - rd_simpl. eexists _, _. split; [reflexivity|].
    set (b := u8 (m (data_ + 24))).
    destruct (Z_lt_le_dec b 1) as [B|B]; [|destruct (Z_lt_le_dec 8 b) as [C|C]].
    + rewrite (wakeup_default b) by lia. split; [|split]; try congruence; try lia.
      split; [congruence | lia].
    + rewrite (wakeup_default b) by lia. split; [|split]; try congruence; try lia.
      split; [congruence | lia].
    + assert (D : b = 1 \/ b = 2 \/ b = 3 \/ b = 4 \/ b = 5 \/ b = 6 \/ b = 7 \/ b = 8)
        by lia.
      split; [|split; [|intros _; exact L]].
      * split; [intros _; lia|]. intros _.
        destruct D as [->|[->|[->|[->|[->|[->|[->| ->]]]]]]]; discriminate.
      * intros _.
        destruct D as [->|[->|[->|[->|[->|[->|[->| ->]]]]]]]; reflexivity.
Qed.


Lemma low_five_bits f :
  Z.land f 0x1F <> 0 ->
  Z.testbit f 0 || Z.testbit f 1 || Z.testbit f 2 || Z.testbit f 3 || Z.testbit f 4
  = true.
Proof.
  intros H.
  destruct (Z.testbit f 0) eqn:B0; [reflexivity|].
  destruct (Z.testbit f 1) eqn:B1; [reflexivity|].
  destruct (Z.testbit f 2) eqn:B2; [reflexivity|].
  destruct (Z.testbit f 3) eqn:B3; [reflexivity|].
  destruct (Z.testbit f 4) eqn:B4; [reflexivity|].
  exfalso. apply H. apply Z.bits_inj'. intros n Hn.
  rewrite Z.land_spec, Z.bits_0. change 31 with (Z.ones 5).
  destruct (Z_lt_le_dec n 5) as [L|L].
  - assert (D : n = 0 \/ n = 1 \/ n = 2 \/ n = 3 \/ n = 4) by lia.
    destruct D as [->|[->|[->|[->| ->]]]];
      rewrite ?B0, ?B1, ?B2, ?B3, ?B4; reflexivity.
  - rewrite Z.ones_spec_high by lia. apply andb_false_r.
Qed.

(** X12.  The list [GetFeatures] returns is empty, or it has the five labels
    of the table in their order and at least one of them is set: a board
    with none of the five features gets no list at all. *)
Theorem GetFeatures_some_feature (m : mem) (data_ : Z) :
  exists feature_list,
    value_of (BaseboardTable.GetFeatures data_) m = Some feature_list
    /\ (feature_list = []
        \/ (map fst feature_list = BaseboardTable.feature_names
            /\ existsb snd feature_list = true)).
Proof.
  unfold value_of, BaseboardTable.GetFeatures, Table.GetByte. rd_simpl.
  destruct (u8 (m (data_ + 1)) <? 10); [eexists; split; [reflexivity | left; reflexivity]|].
  rd_simpl.
  destruct (Z.eqb_spec (Z.land (u8 (m (data_ + 9))) 31) 0) as [Z0|Z0];
    [eexists; split; [reflexivity | left; reflexivity]|].
  eexists. split; [reflexivity|]. right.
  rewrite emplace_flags_map by lia. cbn [app seq map fst existsb snd].
  split; [reflexivity|].
  pose proof (low_five_bits _ Z0) as B. cbn in B |- *.
  rewrite orb_false_r. rewrite <- B. rewrite !orb_assoc. reflexivity.
Qed.

(** ** Fields read under a test of the declared length *)

Lemma uuid_scan_reads turns : forall ptr i only_0xFF only_0x00 m tr v tr',
  0 <= i ->
  SystemTable.uuid_scan turns ptr i only_0xFF only_0x00 m tr = Some (v, tr') ->
  extends ptr (ptr + 16) tr tr'.
Proof.
  induction turns as [|turns IH]; intros ptr i fFF f00 m tr v tr' Hi E; [discriminate|].
  rewrite uuid_scan_S in E.
  destruct (Z.ltb_spec i 16) as [L|L]; cbn [andb] in E.
  - destruct (f00 || fFF).
    + apply IH in E; [|lia].
      apply (extends_cons _ _ (ptr + i)); [lia|].
      apply (extends_cons _ _ (ptr + i)); [lia | exact E].
    + injection E as _ <-. apply extends_refl.
  - injection E as _ <-. apply extends_refl.
Qed.

Lemma load_each_reads ptr idx : forall m tr v tr',
  Forall (fun i => 0 <= i < 16) idx ->
  SystemTable.load_each ptr idx m tr = Some (v, tr') ->
  extends ptr (ptr + 16) tr tr'.
Proof.
  induction idx as [|i idx IH]; intros m tr v tr' Hidx E.
  - injection E as _ <-. apply extends_refl.
  - inversion Hidx as [|? ? Hi Hrest]; subst.
    cbn [SystemTable.load_each] in E. revert E. rd_simpl.
    destruct (SystemTable.load_each ptr idx m ((ptr + i) :: tr)) as [[bs t]|] eqn:El;
      [|discriminate].
    intros [= _ <-]. apply (extends_cons _ _ (ptr + i)); [lia|].
    exact (IH _ _ _ _ Hrest El).
Qed.

(** X13.  The accessors of fixed fields that test the declared length
    ([GetUUID], [GetWakeupType], [GetFeatures], [GetBoardType]) read nothing
    at or behind the declared length of the structure, the length byte
    itself apart, whatever the memory holds. *)
Theorem gated_fields_inside_declared_length (m : mem) (data_ major minor : Z) :
  let declared := Z.max 2 (u8 (m (data_ + 0x01))) in
  (exists tr, reads_of (SystemTable.GetUUID data_ major minor) m = Some tr
              /\ reads_within data_ (data_ + declared) tr)
  /\ (exists tr, reads_of (SystemTable.GetWakeupType data_) m = Some tr
                 /\ reads_within data_ (data_ + declared) tr)
  /\ (exists tr, reads_of (BaseboardTable.GetFeatures data_) m = Some tr
                 /\ reads_within data_ (data_ + declared) tr)
  /\ (exists tr, reads_of (BaseboardTable.GetBoardType data_) m = Some tr
                 /\ reads_within data_ (data_ + declared) tr).
Proof.
  intros declared. subst declared.
  pose proof (u8_range (m (data_ + 1))) as R.
  assert (W1 : reads_within data_ (data_ + Z.max 2 (u8 (m (data_ + 1)))) [data_ + 1])
    by (constructor; [lia | constructor]).
  split; [|split; [|split]].
  - unfold reads_of, SystemTable.GetUUID, Table.GetByte. rd_simpl.
    destruct (Z.ltb_spec (u8 (m (data_ + 1))) 25) as [L|L];
      [eexists; split; [reflexivity | exact W1]|].
    destruct (uuid_scan_flags m (data_ + 8) 16 0 true true [data_ + 1] eq_refl) as [tr E].
    change (Z.of_nat 0) with 0 in E. rewrite E.
    pose proof (uuid_scan_reads _ _ _ _ _ _ _ _ _ (Z.le_refl 0) E) as X.
    assert (W2 : reads_within data_ (data_ + Z.max 2 (u8 (m (data_ + 1)))) tr).
    { apply (extends_within _ _ [data_ + 1]); [|exact W1].
      eapply extends_weaken; [| |exact X]; lia. }
    destruct (_ || _); [eexists; split; [reflexivity | exact W2]|].
    destruct (0x0206 <=? Z.shiftl major 8 + minor).
    + destruct (SystemTable.load_each (data_ + 8) _ m tr) as [[bs t]|] eqn:El.
      * eexists. split; [reflexivity|].
        apply load_each_reads in El; [|repeat constructor; lia].
        apply (extends_within _ _ tr); [|exact W2].
        eapply extends_weaken; [| |exact El]; lia.
      * destruct (load_each_map (data_ + 8)
                    [3; 2; 1; 0; 5; 4; 7; 6; 8; 9; 10; 11; 12; 13; 14; 15] m tr)
          as [t E']. rewrite E' in El. discriminate.
    + destruct (SystemTable.load_each (data_ + 8) _ m tr) as [[bs t]|] eqn:El.
      * eexists. split; [reflexivity|].
        apply load_each_reads in El; [|repeat constructor; lia].
        apply (extends_within _ _ tr); [|exact W2].
        eapply extends_weaken; [| |exact El]; lia.
      * destruct (load_each_map (data_ + 8)
                    [0; 1; 2; 3; 4; 5; 6; 7; 8; 9; 10; 11; 12; 13; 14; 15] m tr)
          as [t E']. rewrite E' in El. discriminate.
  - unfold reads_of, SystemTable.GetWakeupType, Table.GetByte. rd_simpl.
    destruct (Z.ltb_spec (u8 (m (data_ + 1))) 25) as [L|L];
      [eexists; split; [reflexivity | exact W1]|].
    rd_simpl. eexists. split; [reflexivity|]. constructor; [lia | exact W1].
  - unfold reads_of, BaseboardTable.GetFeatures, Table.GetByte. rd_simpl.
    destruct (Z.ltb_spec (u8 (m (data_ + 1))) 10) as [L|L];
      [eexists; split; [reflexivity | exact W1]|].
    rd_simpl. destruct (_ =? 0); (eexists; split; [reflexivity|]);
      (constructor; [lia | exact W1]).
  - unfold reads_of, BaseboardTable.GetBoardType, Table.GetByte. rd_simpl.
    destruct (Z.ltb_spec (u8 (m (data_ + 1))) 14) as [L|L];
      [eexists; split; [reflexivity | exact W1]|].
    rd_simpl. destruct (_ || _); (eexists; split; [reflexivity|]);
      (constructor; [lia | exact W1]).
Qed.

(** ** Words, least significant byte first *)

Lemma lor_shift_add b hi :
  0 <= b < 256 -> 0 <= hi -> Z.lor b (Z.shiftl hi 8) = b + 256 * hi.
Proof.
  intros Hb Hh.
  assert (L : Z.land b (Z.shiftl hi 8) = 0).
  { apply Z.bits_inj'. intros n Hn. rewrite Z.land_spec, Z.bits_0.
    destruct (Z_lt_le_dec n 8) as [N|N].
    - rewrite Z.shiftl_spec_low by lia. apply andb_false_r.
    - replace (Z.testbit b n) with false; [reflexivity|].
      symmetry. destruct (Z.eq_dec b 0) as [->|B]; [apply Z.bits_0|].
      apply Z.bits_above_log2; [lia|].
      assert (Z.log2 b < 8) by (apply Z.log2_lt_pow2; lia). lia. }
  rewrite <- (Z.lxor_lor _ _ L), <- (Z.add_nocarry_lxor _ _ L), Z.shiftl_mul_pow2 by lia.
  lia.
Qed.

Lemma bytes_at_S m a n : bytes_at m a (S n) = u8 (m a) :: bytes_at m (a + 1) n.
Proof.
  unfold bytes_at. cbn [seq map]. rewrite Z.add_0_r. f_equal.
  rewrite <- seq_shift, map_map. apply map_ext. intros i.
  do 2 f_equal. lia.
Qed.

Lemma le_value_range bs :
  Forall (fun b => 0 <= b < 256) bs -> 0 <= le_value bs < 256 ^ Z.of_nat (List.length bs).
Proof.
  induction 1 as [|b bs Hb _ IH]; [cbn; lia|].
  cbn [le_value List.length]. rewrite Nat2Z.inj_succ, Z.pow_succ_r by lia. nia.
Qed.

Lemma bytes_at_bytes m a n : Forall (fun b => 0 <= b < 256) (bytes_at m a n).
Proof.
  unfold bytes_at. apply Forall_forall. intros b Hb. apply in_map_iff in Hb.
  destruct Hb as [i [<- _]]. apply u8_range.
Qed.

Lemma bytes_at_length m a n : List.length (bytes_at m a n) = n.
Proof. unfold bytes_at. rewrite length_map, length_seq. reflexivity. Qed.

Lemma load_le_value n : forall a m tr,
  exists tr', Table.load_le n a m tr = Some (le_value (bytes_at m a n), tr').
Proof.
  induction n as [|n IH]; intros a m tr.
  - eexists. reflexivity.
  - cbn [Table.load_le]. rd_simpl.
    destruct (IH (a + 1) m (a :: tr)) as [tr' E]. rewrite E.
    eexists. rewrite bytes_at_S. cbn [le_value].
    rewrite lor_shift_add; [reflexivity | apply u8_range |].
    apply le_value_range, bytes_at_bytes.
Qed.

(** ** The BIOS characteristics *)

Lemma GetCharacteristics_eq m data_ c tr :
  Table.GetQword data_ 0x0A m [] = Some (c, tr) ->
  value_of (BiosTable.GetCharacteristics data_) m =
  Some ((if Z.testbit c 3 then []
         else map (fun j => (nth (Z.to_nat (4 + Z.of_nat j - 3))
                                 BiosTable.characteristics_names EmptyString,
                             Z.testbit c (4 + Z.of_nat j))) (seq 0 28))
        ++ (if 0x13 <=? u8 (m (data_ + 0x01))
            then map (fun j => (nth (Z.to_nat (0 + Z.of_nat j - 0))
                                    BiosTable.characteristics1_names EmptyString,
                                Z.testbit (u8 (m (data_ + 0x12))) (0 + Z.of_nat j)))
                     (seq 0 8)
            else [])
        ++ (if 0x14 <=? u8 (m (data_ + 0x01))
            then map (fun j => (nth (Z.to_nat (0 + Z.of_nat j - 0))
                                    BiosTable.characteristics2_names EmptyString,
                                Z.testbit (u8 (m (data_ + 0x13))) (0 + Z.of_nat j)))
                     (seq 0 3)
            else [])).
Proof.
  intros E.
  unfold value_of, BiosTable.GetCharacteristics, Table.GetByte.
  rd_simpl. rewrite E.
  pose proof (flag_testbit c 3 ltac:(lia)) as B3.
  apply (f_equal negb) in B3. rewrite negb_involutive in B3. rewrite B3.
  rewrite !emplace_flags_map by lia.
  destruct (Z.testbit c 3); cbn [negb];
    destruct (19 <=? u8 (m (data_ + 1))); rd_simpl;
    destruct (20 <=? u8 (m (data_ + 1))); rd_simpl;
    rewrite ?emplace_flags_map by lia; rewrite <- ?app_assoc, ?app_nil_r;
    reflexivity.
Qed.

Lemma le_value_app bs1 bs2 :
  le_value (bs1 ++ bs2)
  = le_value bs1 + 256 ^ Z.of_nat (List.length bs1) * le_value bs2.
Proof.
  induction bs1 as [|b bs1 IH].
  - cbn [app le_value List.length]. change (Z.of_nat 0) with 0.
    rewrite Z.pow_0_r. lia.
  - cbn [app le_value List.length].
    rewrite IH, Nat2Z.inj_succ, Z.pow_succ_r by lia. ring.
Qed.

Lemma bytes_at_app m a n1 n2 :
  bytes_at m a (n1 + n2) = bytes_at m a n1 ++ bytes_at m (a + Z.of_nat n1) n2.
Proof.
  revert a. induction n1 as [|n1 IH]; intros a.
  - replace (a + Z.of_nat 0) with a by lia. reflexivity.
  - cbn [Nat.add]. rewrite !bytes_at_S, IH. cbn [app].
    replace (a + 1 + Z.of_nat n1) with (a + Z.of_nat (S n1)) by lia. reflexivity.
Qed.

(** The 32 low bits of the flag word are those of its four low bytes. *)
Lemma qword_low_bits m a i :
  0 <= i < 32 ->
  Z.testbit (le_value (bytes_at m a 8)) i = Z.testbit (le_value (bytes_at m a 4)) i.
Proof.
  intros Hi. change 8%nat with (4 + 4)%nat.
  rewrite bytes_at_app, le_value_app, bytes_at_length.
  pose proof (le_value_range _ (bytes_at_bytes m a 4)) as R.
  rewrite bytes_at_length in R.
  change (256 ^ Z.of_nat 4) with (2 ^ 32) in *.
  set (low := le_value (bytes_at m a 4)) in *.
  set (high := le_value (bytes_at m (a + Z.of_nat 4) 4)).
  rewrite <- (Z.mod_pow2_bits_low (low + 2 ^ 32 * high) 32 i) by lia.
  replace ((low + 2 ^ 32 * high) mod 2 ^ 32) with low; [reflexivity|].
  rewrite (Z.mul_comm (2 ^ 32)), Z.mod_add by lia.
  symmetry. apply Z.mod_small. exact R.
Qed.

Lemma bytes_at_ext m m' a n :
  (forall i, 0 <= i < Z.of_nat n -> m (a + i) = m' (a + i)) ->
  bytes_at m a n = bytes_at m' a n.
Proof.
  intros H. unfold bytes_at. apply map_ext_in. intros i Hi. apply in_seq in Hi.
  rewrite H by lia. reflexivity.
Qed.

(** X15.  The four high bytes of the 64-bit flag word, at the offsets 0x0E
    to 0x11, are read and never used: two memories that differ there only
    give the same list of characteristics. *)
Theorem GetCharacteristics_ignores_high_bytes (m m' : mem) (data_ : Z) :
  (forall a, a < data_ + 0x0E \/ data_ + 0x11 < a -> m a = m' a) ->
  value_of (BiosTable.GetCharacteristics data_) m
  = value_of (BiosTable.GetCharacteristics data_) m'.
Proof.
  intros H.
  destruct (load_le_value 8 (data_ + 10) m []) as [tr E].
  destruct (load_le_value 8 (data_ + 10) m' []) as [tr' E'].
  rewrite (GetCharacteristics_eq m data_ _ tr E), (GetCharacteristics_eq m' data_ _ tr' E').
  assert (B : forall i, 0 <= i < 32 ->
                Z.testbit (le_value (bytes_at m (data_ + 10) 8)) i
                = Z.testbit (le_value (bytes_at m' (data_ + 10) 8)) i).
  { intros i Hi. rewrite !qword_low_bits by exact Hi.
    rewrite (bytes_at_ext m m' (data_ + 10) 4); [reflexivity|].
    intros j Hj. apply H. lia. }
  rewrite (H (data_ + 1)), (H (data_ + 18)), (H (data_ + 19)) by lia.
  rewrite (B 3) by lia. f_equal. f_equal.
  destruct (Z.testbit _ 3); [reflexivity|].
  apply map_ext_in. intros j Hj. apply in_seq in Hj. rewrite B by lia. reflexivity.
Qed.

Lemma GetCharacteristics_ignores_high_bytes_witness :
  value_of (BiosTable.GetCharacteristics 0)
           (place [0; 0x14; 0; 0; 0; 0; 0; 0; 0; 0; 0x90; 0; 0; 0x80;
                   0; 0; 0; 0; 1; 2] Examples.outside)
  = value_of (BiosTable.GetCharacteristics 0)
             (place [0; 0x14; 0; 0; 0; 0; 0; 0; 0; 0; 0x90; 0; 0; 0x80;
                     0xFF; 0xFF; 0xFF; 0xFF; 1; 2] Examples.outside).
Proof.
  apply (GetCharacteristics_ignores_high_bytes
           (place [0; 0x14; 0; 0; 0; 0; 0; 0; 0; 0; 0x90; 0; 0; 0x80;
                   0; 0; 0; 0; 1; 2] Examples.outside)
           (place [0; 0x14; 0; 0; 0; 0; 0; 0; 0; 0; 0x90; 0; 0; 0x80;
                   0xFF; 0xFF; 0xFF; 0xFF; 1; 2] Examples.outside) 0).
  intros a Ha. unfold place. cbn [List.length Z.of_nat Pos.of_succ_nat Pos.succ].
  destruct ((0 <=? a) && (a <? 20)) eqn:C; [|reflexivity].
  assert (D : a = 0 \/ a = 1 \/ a = 2 \/ a = 3 \/ a = 4 \/ a = 5 \/ a = 6 \/ a = 7
              \/ a = 8 \/ a = 9 \/ a = 10 \/ a = 11 \/ a = 12 \/ a = 13
              \/ a = 18 \/ a = 19) by lia.
  destruct D as [->|[->|[->|[->|[->|[->|[->|[->|[->|[->|[->|[->|[->|[->|[->| ->]]]]]]]]]]]]]]];
    reflexivity.
Defined.


(** ** Sizes, address and revisions of the BIOS view *)



Lemma digit_value_dec (v : Z) :
  0 <= v <= 9 -> Reading.digit_value (StringUtil.dec_digit v) = Some v.
Proof.
  intros H.
  assert (A : forallb (fun k =>
                match Reading.digit_value (StringUtil.dec_digit (Z.of_nat k)) with
                | Some d => d =? Z.of_nat k
                | None => false
                end) (seq 0 10) = true) by reflexivity.
  rewrite forallb_forall in A.
  assert (Hin : In (Z.to_nat v) (seq 0 10)) by (apply in_seq; lia).
  specialize (A (Z.to_nat v) Hin). rewrite Z2Nat.id in A by lia.
  destruct (Reading.digit_value (StringUtil.dec_digit v)) as [d|]; [|discriminate A].
  apply Z.eqb_eq in A. congruence.
Qed.

Lemma read_dec_u8 b rest :
  0 <= b < 256 ->
  (forall acc, Reading.read_digits acc rest = (acc, rest)) ->
  Reading.read_digits 0 (StringUtil.dec_u8 b ++ rest) = (b, rest).
Proof.
  intros Hb Hrest. unfold StringUtil.dec_u8.
  pose proof (Z.div_mod b 10 ltac:(lia)) as D1.
  pose proof (Z.mod_pos_bound b 10 ltac:(lia)) as M1.
  pose proof (Z.div_mod (b / 10) 10 ltac:(lia)) as D2.
  pose proof (Z.mod_pos_bound (b / 10) 10 ltac:(lia)) as M2.
  assert (E100 : b / 100 = b / 10 / 10) by (rewrite Z.div_div by lia; reflexivity).
  destruct (Z.ltb_spec b 10) as [L1|L1]; [|destruct (Z.ltb_spec b 100) as [L2|L2]];
    cbn [append Reading.read_digits].
  - rewrite digit_value_dec, Hrest by lia. f_equal; lia.
  - rewrite !digit_value_dec by lia. cbn [Reading.read_digits].
    rewrite Hrest. f_equal; lia.
  - rewrite E100. rewrite !digit_value_dec by lia. cbn [Reading.read_digits].
    rewrite Hrest. f_equal; lia.
Qed.

Lemma revision_read_back major minor :
  0 <= major < 256 -> 0 <= minor < 256 ->
  StringUtil.StringPrintf_u_u major minor <> EmptyString
  /\ Reading.read_u_u (StringUtil.StringPrintf_u_u major minor) = Some (major, minor).
Proof.
  intros H1 H2. split.
  - unfold StringUtil.StringPrintf_u_u, StringUtil.dec_u8.
    destruct (major <? 10); [discriminate|]. destruct (major <? 100); discriminate.
  - unfold Reading.read_u_u, StringUtil.StringPrintf_u_u.
    rewrite (read_dec_u8 major) by (try exact H1; reflexivity).
    cbn [append].
    assert (E : StringUtil.dec_u8 minor = (StringUtil.dec_u8 minor ++ "")%string).
    { unfold StringUtil.dec_u8. destruct (minor <? 10); [reflexivity|].
      destruct (minor <? 100); reflexivity. }
    rewrite E, (read_dec_u8 minor) by (try exact H2; reflexivity).
    reflexivity.
Qed.

(** X18.  [GetBiosRevision] and [GetFirmwareRevision] return the empty text
    exactly when one of their two bytes is 0xFF; any other text reads back,
    as decimal digits, a dot and decimal digits, to the two bytes. *)
Theorem revisions_read_back (m : mem) (data_ : Z) :
  (exists text,
      value_of (BiosTable.GetBiosRevision data_) m = Some text
      /\ (text = EmptyString <->
          u8 (m (data_ + 0x14)) = 0xFF \/ u8 (m (data_ + 0x15)) = 0xFF)
      /\ (text <> EmptyString ->
          Reading.read_u_u text
          = Some (u8 (m (data_ + 0x14)), u8 (m (data_ + 0x15)))))
  /\ (exists text,
         value_of (BiosTable.GetFirmwareRevision data_) m = Some text
         /\ (text = EmptyString <->
             u8 (m (data_ + 0x16)) = 0xFF \/ u8 (m (data_ + 0x17)) = 0xFF)
         /\ (text <> EmptyString ->
             Reading.read_u_u text
             = Some (u8 (m (data_ + 0x16)), u8 (m (data_ + 0x17))))).
Proof.
  assert (G : forall major minor,
             0 <= major < 256 -> 0 <= minor < 256 ->
             exists text,
               Some (if negb (major =? 255) && negb (minor =? 255)
                     then StringUtil.StringPrintf_u_u major minor else EmptyString)
               = Some text
               /\ (text = EmptyString <-> major = 255 \/ minor = 255)
               /\ (text <> EmptyString ->
                   Reading.read_u_u text = Some (major, minor))).
  { intros major minor H1 H2.
    destruct (revision_read_back major minor H1 H2) as [Hne Hread].
    eexists. split; [reflexivity|].
    destruct (Z.eqb_spec major 255) as [A|A]; cbn [negb andb].
    - split; [split; [intros _; left; exact A | reflexivity] | congruence].
    - destruct (Z.eqb_spec minor 255) as [B|B]; cbn [negb].
      + split; [split; [intros _; right; exact B | reflexivity] | congruence].
      + split; [split; [intros H; contradiction | intros [H|H]; contradiction]|].
        intros _. exact Hread. }
  split.
  - unfold value_of, BiosTable.GetBiosRevision, Table.GetByte. rd_simpl.
    destruct (G (u8 (m (data_ + 20))) (u8 (m (data_ + 21))) (u8_range _) (u8_range _))
      as [text [E H]].
    exists text. split; [|exact H].
    rewrite <- E. destruct (negb _ && negb _); reflexivity.
  - unfold value_of, BiosTable.GetFirmwareRevision, Table.GetByte. rd_simpl.
    destruct (G (u8 (m (data_ + 22))) (u8 (m (data_ + 23))) (u8_range _) (u8_range _))
      as [text [E H]].
    exists text. split; [|exact H].
    rewrite <- E. destruct (negb _ && negb _); reflexivity.
Qed.

(** X19.  A table view that is valid stands on a structure of the type
    asked for, whose four header bytes lie inside the announced region and
    whose declared length is 4 or more. *)
Theorem valid_table_structure (s : SMBios) (type : Z) (m : mem) :
  exists data,
    value_of (Table.make s type) m = Some data
    /\ (Table.IsValid data = true ->
        exists p,
          data = Some p /\ 0 <= p /\ p + 4 <= length (data_ s)
          /\ u8 (m p) = type /\ 4 <= u8 (m (p + 1))).
Proof.
  destruct (GetTable_walk_safe s type m) as [e [tr [E [_ F]]]].
  exists (found e). split.
  - unfold value_of, Table.make, GetTable. rd_simpl. rewrite E. reflexivity.
  - destruct (found e) as [p|] eqn:Hf; [|discriminate].
    intros _. exists p. split; [reflexivity|]. apply F. reflexivity.
Qed.
